(** * B100 streaming I/O core (host/lib/usrp/b100/io_impl.cpp)

    A shallow embedding of the receive demultiplexer, the asynchronous
    message handler, the sub-device reconfiguration routines and the
    packet sizing rules of the B100 driver, together with the properties
    the specification states about them.

    Conventions.
    - Unsigned machine integers are [Z] values with the wrap-around
      written out ([wrap w z = z mod 2^w]).
    - A [std::vector] is a [list]; [v[i]] is stdpp's [v !! i], and an
      access outside the vector (undefined behaviour in C++) is an
      explicit [OutOfRange] outcome.
    - [while (true)] is a fuel-indexed [Fixpoint]; running out of fuel is
      the distinct outcome [OutOfFuel], never confused with a return.
    - [UHD_MSG(kind) << ...] appends to a message log carried in the
      state.
    - Mutexes ([get_scoped_lock]) are not modelled: every function is
      read as one sequential critical section. *)

From Stdlib Require Import ZArith Lia.
From stdpp Require Import base option list strings gmap.

(** ** Machine integers *)

Definition wrap (w : Z) (z : Z) : Z := (z mod 2 ^ w)%Z.

(** ** Messages ([UHD_MSG]) *)

Inductive msg_type := msg_status | msg_warning | msg_error | msg_fastpath.

Inductive msg_item :=
| Str (s : string)
| Num (z : Z).

Record uhd_msg := UHD_MSG { msg_kind : msg_type; msg_text : list msg_item }.

(** ** Receive buffers

    A [managed_recv_buffer] is the frame memory seen through
    [cast<const uint32_t *>()]: [frame] lists its 32-bit words, word [i]
    holding the value [uhd::wtohx(vrt_hdr[i])] has on the host.  A frame
    shorter than the word read is read as 0 (the transport hands out whole
    frames, so the read itself is inside the frame memory).  [buff_size]
    is the number of bytes received into the frame. *)

Record managed_recv_buffer := ManagedRecvBuffer {
  frame : list Z;      (* the words behind cast<const uint32_t *>() *)
  buff_size : Z        (* size(), in bytes *)
}.

Definition wtohx_at (buff : managed_recv_buffer) (i : nat) : Z :=
  wrap 32 (default 0%Z (frame buff !! i)).

(** ** Bounded buffer (uhd/transport/bounded_buffer.hpp) *)

(** Modelled from the spec: the class [bounded_buffer] (its header is not
    among the sources).  Section 4.2: a fixed-capacity FIFO keyed by
    insertion order; [push] evicts the oldest record when full and never
    blocks or fails; [pop] removes the oldest record.  [bb_elems] lists
    the records oldest first. *)
Record bounded_buffer (A : Type) := BoundedBuffer {
  bb_capacity : nat;
  bb_elems : list A
}.
Arguments BoundedBuffer {A} _ _.
Arguments bb_capacity {A} _.
Arguments bb_elems {A} _.

(** Modelled from the spec: the constructor [bounded_buffer(capacity)]. *)
Definition bb_new {A} (capacity : nat) : bounded_buffer A :=
  BoundedBuffer capacity [].

Definition bb_full {A} (q : bounded_buffer A) : bool :=
  bool_decide (bb_capacity q ≤ length (bb_elems q)).

(** Modelled from the spec: [push_with_pop_on_full], "if full, evict the
    oldest record to make room (never blocks, never fails)". *)
Definition push_with_pop_on_full {A} (elem : A) (q : bounded_buffer A)
  : bounded_buffer A :=
  if bb_full q
  then BoundedBuffer (bb_capacity q) (tail (bb_elems q) ++ [elem])
  else BoundedBuffer (bb_capacity q) (bb_elems q ++ [elem]).

(** Modelled from the spec: [pop_with_haste], the non-blocking pop:
    [None] stands for the [false] return on an empty buffer. *)
Definition pop_with_haste {A} (q : bounded_buffer A)
  : option (A * bounded_buffer A) :=
  match bb_elems q with
  | [] => None
  | elem :: rest => Some (elem, BoundedBuffer (bb_capacity q) rest)
  end.

(** Modelled from the spec: [pop_with_timed_wait], "blocks until an element
    is available or timeout elapses; returns nothing on timeout".  In a
    sequential run nobody pushes while the caller waits, so the wait on an
    empty buffer ends in the timeout. *)
Definition pop_with_timed_wait {A T} (q : bounded_buffer A) (timeout : T)
  : option (A * bounded_buffer A) :=
  pop_with_haste q.

Definition bb_wf {A} (q : bounded_buffer A) : Prop :=
  0 < bb_capacity q ∧ length (bb_elems q) ≤ bb_capacity q.

Fixpoint push_all {A} (l : list A) (q : bounded_buffer A) : bounded_buffer A :=
  match l with
  | [] => q
  | x :: l' => push_all l' (push_with_pop_on_full x q)
  end.

Fixpoint pop_n {A} (n : nat) (q : bounded_buffer A)
  : list (option A) * bounded_buffer A :=
  match n with
  | 0 => ([], q)
  | S n' =>
    match pop_with_haste q with
    | None => let '(rs, q') := pop_n n' q in (None :: rs, q')
    | Some (x, q1) => let '(rs, q') := pop_n n' q1 in (Some x :: rs, q')
    end
  end.

(** ** The transport interface ([zero_copy_if]) *)

(** The data transport is an external collaborator: a stateful object of
    some type [X] answering [get_recv_buff(timeout)] with a buffer or with
    a null pointer ([None], the timeout), and reporting its number of
    receive frames.  [T] is the type of the timeout, which the driver only
    passes through. *)
Class zero_copy_if (T X : Type) := {
  xport_get_recv_buff : T → X → option managed_recv_buffer * X;
  get_num_recv_frames : X → nat
}.

(** ** Asynchronous metadata *)

Record time_spec_t (R : Type) := TimeSpec {
  ts_full_secs : Z;
  ts_tick_count : Z;
  ts_tick_rate : R
}.
Arguments TimeSpec {R} _ _ _.

Record async_metadata_t (R : Type) := AsyncMetadata {
  channel : nat;
  has_time_spec : bool;
  time_spec : time_spec_t R;
  event_code : Z
}.
Arguments AsyncMetadata {R} _ _ _ _.
Arguments channel {R} _.
Arguments has_time_spec {R} _.
Arguments time_spec {R} _.
Arguments event_code {R} _.


(** ** Exceptions and outcomes *)

(** [catch (const std::exception &)] only catches what derives from
    [std::exception]; anything else keeps propagating. *)
Inductive exception :=
| StdException (what : string)
| ForeignException.

(** How a call ends: normally, by an exception leaving the function, or in
    undefined behaviour (an unchecked [operator[]] outside its vector, a
    division by zero).  The state reached so far is kept in every case. *)
Inductive outcome (S : Type) :=
| Done (s : S)
| Threw (e : exception) (s : S)
| Undefined (s : S).
Arguments Done {S} _.
Arguments Threw {S} _ _.
Arguments Undefined {S} _.

(** ** Packet handlers ([sph::recv_packet_handler], [sph::send_packet_handler]) *)

Inductive get_buff_binding :=
| BindGetRecvBuff (index : nat)   (* bind(&io_impl::get_recv_buff, _io_impl.get(), i, _1) *)
| BindGetSendBuff.                (* bind(&zero_copy_if::get_send_buff, _data_transport, _1) *)

Inductive overflow_binding :=
| BindHandleOverflow (dsp : nat). (* bind(&rx_dsp_core_200::handle_overflow, _rx_dsps[i]) *)

Record xport_chan_props := XportChanProps {
  xcp_get_buff : option get_buff_binding;
  xcp_overflow : option overflow_binding
}.

(** Modelled from the spec: [resize] of a packet handler (its header is not
    among the sources), "resize the direction's channel set to
    spec.size()": channels kept up to the new size, new ones unbound. *)
Definition handler_resize (n : nat) (h : list xport_chan_props) : list xport_chan_props :=
  take n h ++ replicate (n - length h) (XportChanProps None None).

Definition set_xport_chan_get_buff (i : nat) (f : get_buff_binding)
    (h : list xport_chan_props) : list xport_chan_props :=
  alter (λ p, XportChanProps (Some f) (xcp_overflow p)) i h.

Definition set_overflow_handler (i : nat) (f : overflow_binding)
    (h : list xport_chan_props) : list xport_chan_props :=
  alter (λ p, XportChanProps (xcp_get_buff p) (Some f)) i h.

(** ** [b100_impl::io_impl] *)

Inductive recv_result :=
| Returned (buff : option managed_recv_buffer)  (* [None] is the null sptr *)
| OutOfRange                                    (* [_buffs_queue[...]] outside the vector *)
| OutOfFuel.                                    (* the loop is still running *)

Record io_impl (X R : Type) := IoImpl {
  data_transport : X;
  async_msg_fifo : bounded_buffer (async_metadata_t R);
  _buffs_queue : list (bounded_buffer managed_recv_buffer);
  recv_handler : list xport_chan_props;
  send_handler : list xport_chan_props;
  msgs : list uhd_msg                           (* what UHD_MSG has printed *)
}.
Arguments IoImpl {X R} _ _ _ _ _ _.
Arguments data_transport {X R} _.
Arguments async_msg_fifo {X R} _.
Arguments _buffs_queue {X R} _.
Arguments recv_handler {X R} _.
Arguments send_handler {X R} _.
Arguments msgs {X R} _.

Definition with_transport {X R} (x : X) (self : io_impl X R) : io_impl X R :=
  IoImpl x (async_msg_fifo self) (_buffs_queue self)
         (recv_handler self) (send_handler self) (msgs self).

Definition with_fifo {X R} (f : bounded_buffer (async_metadata_t R))
    (self : io_impl X R) : io_impl X R :=
  IoImpl (data_transport self) f (_buffs_queue self)
         (recv_handler self) (send_handler self) (msgs self).

Definition with_queues {X R} (qs : list (bounded_buffer managed_recv_buffer))
    (self : io_impl X R) : io_impl X R :=
  IoImpl (data_transport self) (async_msg_fifo self) qs
         (recv_handler self) (send_handler self) (msgs self).

Definition with_recv_handler {X R} (h : list xport_chan_props)
    (self : io_impl X R) : io_impl X R :=
  IoImpl (data_transport self) (async_msg_fifo self) (_buffs_queue self)
         h (send_handler self) (msgs self).

Definition with_send_handler {X R} (h : list xport_chan_props)
    (self : io_impl X R) : io_impl X R :=
  IoImpl (data_transport self) (async_msg_fifo self) (_buffs_queue self)
         (recv_handler self) h (msgs self).

Definition print_msg {X R} (m : uhd_msg) (self : io_impl X R) : io_impl X R :=
  IoImpl (data_transport self) (async_msg_fifo self) (_buffs_queue self)
         (recv_handler self) (send_handler self) (msgs self ++ [m]).

(** The constructor: a 100-deep message fifo and one queue per receive
    channel, each as deep as the transport has receive frames. *)
Definition io_impl_new {T X R} `{!zero_copy_if T X}
    (xport : X) (recv_width : nat) : io_impl X R :=
  IoImpl xport (bb_new 100)
         (replicate recv_width (bb_new (get_num_recv_frames (T:=T) xport)))
         [] [] [].

Section GetRecvBuff.
Context {T X R : Type} `{!zero_copy_if T X}.

(** [B100_RX_SID_BASE] comes from b100_impl.hpp, which is not among the
    sources; [w] is the width in bits of the unsigned type in which
    [wtohx(vrt_hdr[1]) - B100_RX_SID_BASE] is evaluated before it
    initialises the [size_t] variable [rx_index]. *)
Variable B100_RX_SID_BASE : Z.
Variable w : Z.

Definition rx_index_of (buff : managed_recv_buffer) : nat :=
  Z.to_nat (wrap w (wtohx_at buff 1 - B100_RX_SID_BASE)).

(** Do the buffers queued for channel [j] all carry channel [j]'s
    stream id? *)
Definition queue_routed (j : nat) (q : bounded_buffer managed_recv_buffer) : bool :=
  forallb (λ buff, bool_decide (rx_index_of buff = j)) (bb_elems q).

Fixpoint queues_routed_from (j : nat)
    (qs : list (bounded_buffer managed_recv_buffer)) : bool :=
  match qs with
  | [] => true
  | q :: qs' => queue_routed j q && queues_routed_from (S j) qs'
  end.

Definition routed (self : io_impl X R) : Prop :=
  queues_routed_from 0 (_buffs_queue self) = true.

Definition unknown_sid_msg (buff : managed_recv_buffer) : uhd_msg :=
  UHD_MSG msg_error [Str "Got a data packet with known SID "; Num (wtohx_at buff 1)].

Fixpoint get_recv_buff (fuel : nat) (index : nat) (timeout : T)
    (self : io_impl X R) : recv_result * io_impl X R :=
  match fuel with
  | 0 => (OutOfFuel, self)
  | S fuel' =>
    match _buffs_queue self !! index with
    | None => (OutOfRange, self)
    | Some q =>
      (* attempt to pop a buffer from the queue *)
      match pop_with_haste q with
      | Some (buff, q') =>
        (Returned (Some buff), with_queues (<[index := q']> (_buffs_queue self)) self)
      | None =>
        (* otherwise, call into the transport *)
        let '(obuff, xport') := xport_get_recv_buff timeout (data_transport self) in
        match obuff with
        | None => (Returned None, with_transport xport' self) (* timeout *)
        | Some buff =>
          (* check the stream id to know which channel *)
          let rx_index := rx_index_of buff in
          if bool_decide (rx_index = index) then
            (Returned (Some buff), with_transport xport' self)
          (* otherwise queue and try again *)
          else if bool_decide (rx_index < length (_buffs_queue self)) then
            match _buffs_queue self !! rx_index with
            | None => (OutOfRange, with_transport xport' self)
            | Some q_rx =>
              get_recv_buff fuel' index timeout
                (with_queues
                   (<[rx_index := push_with_pop_on_full buff q_rx]> (_buffs_queue self))
                   (with_transport xport' self))
            end
          else
            get_recv_buff fuel' index timeout
              (print_msg (unknown_sid_msg buff) (with_transport xport' self))
        end
      end
    end
  end.

End GetRecvBuff.

(** ** Device state ([b100_impl]) *)

(** The fields of [vrt::if_packet_info_t] this file reads or writes
    ([cid] and [tlr] only appear under [sizeof]).  An enumerator is its
    integer value. *)
Record if_packet_info_t := IfPacketInfo {
  packet_type : Z;
  num_packet_words32 : Z;
  sid : Z;
  has_tsi : bool;
  tsi : Z;
  has_tsf : bool;
  tsf : Z
}.

Definition set_num_packet_words32 (n : Z) (i : if_packet_info_t) : if_packet_info_t :=
  IfPacketInfo (packet_type i) n (sid i) (has_tsi i) (tsi i) (has_tsf i) (tsf i).

(** What [vrt::if_hdr_unpack_le(vrt_hdr, if_packet_info)] does to its
    in-out argument: it returns with the fields filled in, or it throws,
    leaving the argument as far as it had written it. *)
Inductive unpack_result :=
| Unpacked (info : if_packet_info_t)
| UnpackThrew (e : exception) (info : if_packet_info_t).

Inductive byteorder_t := BO_NATIVE | BO_LITTLE_ENDIAN | BO_BIG_ENDIAN.

Record otw_type_t := OtwType { width : Z; shift : Z; byteorder : byteorder_t }.

Record subdev_spec_pair_t := SubdevSpecPair { db_name : string; sd_name : string }.

Record rx_dsp_core_200 := RxDsp {
  rx_mux : option string;            (* last set_mux(conn) *)
  nsamps_per_packet : option Z       (* last set_nsamps_per_packet(n) *)
}.

Record tx_frontend_core_200 := TxFe {
  tx_mux : option string             (* last set_mux(conn) *)
}.

(** The property tree, as far as this file reads it: string leaves under
    paths, a path being the list of its components. *)
Record b100_impl (X R : Type) := B100 {
  _tree : gmap (list string) string;
  _rx_dsps : list rx_dsp_core_200;
  _tx_fe : tx_frontend_core_200;
  _rx_otw_type : otw_type_t;
  _tx_otw_type : otw_type_t;
  fpga_clock_rate : R;               (* _clock_ctrl->get_fpga_clock_rate() *)
  _io_impl : io_impl X R
}.
Arguments B100 {X R} _ _ _ _ _ _ _.
Arguments _tree {X R} _.
Arguments _rx_dsps {X R} _.
Arguments _tx_fe {X R} _.
Arguments _rx_otw_type {X R} _.
Arguments _tx_otw_type {X R} _.
Arguments fpga_clock_rate {X R} _.
Arguments _io_impl {X R} _.

Definition with_rx_dsps {X R} (d : list rx_dsp_core_200) (self : b100_impl X R)
  : b100_impl X R :=
  B100 (_tree self) d (_tx_fe self) (_rx_otw_type self) (_tx_otw_type self)
       (fpga_clock_rate self) (_io_impl self).

Definition with_tx_fe {X R} (fe : tx_frontend_core_200) (self : b100_impl X R)
  : b100_impl X R :=
  B100 (_tree self) (_rx_dsps self) fe (_rx_otw_type self) (_tx_otw_type self)
       (fpga_clock_rate self) (_io_impl self).

Definition with_io_impl {X R} (io : io_impl X R) (self : b100_impl X R)
  : b100_impl X R :=
  B100 (_tree self) (_rx_dsps self) (_tx_fe self) (_rx_otw_type self)
       (_tx_otw_type self) (fpga_clock_rate self) io.

Definition root : list string := ["mboards"; "0"; "dboards"].

Definition rx_connection_path (e : subdev_spec_pair_t) : list string :=
  root ++ [db_name e; "rx_frontends"; sd_name e; "connection"].

Definition tx_connection_path (e : subdev_spec_pair_t) : list string :=
  root ++ [db_name e; "tx_frontends"; sd_name e; "connection"].

Definition lookup_error (path : list string) : exception :=
  StdException (String.concat "/" ("LookupError: Path not found in tree: " :: path)).

Section B100Impl.
Context {X R : Type}.

(** Constants and helpers of headers that are not among the sources. *)
Variable size_bits : Z.                      (* width of size_t *)
Variable max_if_hdr_words32 : Z.             (* vrt::max_if_hdr_words32 *)
Variable sizeof_cid : Z.                     (* sizeof(if_packet_info_t().cid) *)
Variable sizeof_tlr : Z.                     (* sizeof(if_packet_info_t().tlr) *)
Variable get_sample_size : otw_type_t → Z.   (* otw_type_t::get_sample_size *)
Variable B100_TX_ASYNC_SID : Z.
Variable PACKET_TYPE_DATA : Z.
Variable EVENT_CODE_UNDERFLOW : Z.
Variable EVENT_CODE_UNDERFLOW_IN_PACKET : Z.
Variable EVENT_CODE_SEQ_ERROR : Z.
Variable EVENT_CODE_SEQ_ERROR_IN_BURST : Z.
Variable if_hdr_unpack_le : managed_recv_buffer → if_packet_info_t → unpack_result.
Variable get_context_code : managed_recv_buffer → if_packet_info_t → Z.
Variable validate_subdev_spec :
  gmap (list string) string → list subdev_spec_pair_t → string → option exception.

(** *** Packet sizing *)

(** [None] is the division by a zero sample size. *)
Definition get_max_send_samps_per_packet (self : b100_impl X R) : option Z :=
  let hdr_size :=
    wrap size_bits
      (wrap size_bits (0 + wrap size_bits (max_if_hdr_words32 * 4))
       - sizeof_cid) (* no class id ever used *) in
  let bpp := wrap size_bits (2048 - hdr_size) in
  let sample_size := get_sample_size (_tx_otw_type self) in
  if bool_decide (sample_size = 0%Z) then None else Some (bpp / sample_size)%Z.

Definition get_max_recv_samps_per_packet (self : b100_impl X R) : option Z :=
  let hdr_size :=
    wrap size_bits
      (wrap size_bits
         (wrap size_bits (0 + wrap size_bits (max_if_hdr_words32 * 4))
          + sizeof_tlr) (* forced to have trailer *)
       - sizeof_cid) (* no class id ever used *) in
  let bpp := wrap size_bits (2048 - hdr_size) in (* limited by FPGA pkt buffer size *)
  let sample_size := get_sample_size (_rx_otw_type self) in
  if bool_decide (sample_size = 0%Z) then None else Some (bpp / sample_size)%Z.

(** *** Asynchronous messages *)

(** The [async_metadata_t] filled in on lines 138-144. *)
Definition async_record (rbuf : managed_recv_buffer)
    (if_packet_info : if_packet_info_t) (self : b100_impl X R) : async_metadata_t R :=
  AsyncMetadata 0
    (has_tsi if_packet_info && has_tsf if_packet_info)
    (TimeSpec (tsi if_packet_info) (wrap size_bits (tsf if_packet_info))
              (fpga_clock_rate self))
    (get_context_code rbuf if_packet_info).

(** Lines 136-155 of [handle_async_message]: what runs after the
    try/catch statement, on whatever [if_packet_info] then holds. *)
Definition handle_async_message_tail (rbuf : managed_recv_buffer)
    (if_packet_info : if_packet_info_t) (self : b100_impl X R) : b100_impl X R :=
  if bool_decide (sid if_packet_info = B100_TX_ASYNC_SID)
     && negb (bool_decide (packet_type if_packet_info = PACKET_TYPE_DATA))
  then
    (* fill in the async metadata *)
    let metadata := async_record rbuf if_packet_info self in
    let io := with_fifo (push_with_pop_on_full metadata (async_msg_fifo (_io_impl self)))
                        (_io_impl self) in
    if negb (Z.land (event_code metadata)
               (Z.lor EVENT_CODE_UNDERFLOW EVENT_CODE_UNDERFLOW_IN_PACKET) =? 0)%Z
    then with_io_impl (print_msg (UHD_MSG msg_fastpath [Str "U"]) io) self
    else if negb (Z.land (event_code metadata)
               (Z.lor EVENT_CODE_SEQ_ERROR EVENT_CODE_SEQ_ERROR_IN_BURST) =? 0)%Z
    then with_io_impl (print_msg (UHD_MSG msg_fastpath [Str "S"]) io) self
    else with_io_impl io self
  else
    with_io_impl
      (print_msg (UHD_MSG msg_error [Str "Unknown async packet"]) (_io_impl self))
      self.

(** [uninit] is the content of the local [if_packet_info] as its
    declaration leaves it (the struct is declared in a header that is not
    among the sources). *)
Definition handle_async_message (uninit : if_packet_info_t)
    (rbuf : managed_recv_buffer) (self : b100_impl X R) : outcome (b100_impl X R) :=
  let if_packet_info := set_num_packet_words32 (buff_size rbuf / 4)%Z uninit in
  match if_hdr_unpack_le rbuf if_packet_info with
  | Unpacked if_packet_info' =>
    Done (handle_async_message_tail rbuf if_packet_info' self)
  | UnpackThrew (StdException what) if_packet_info' =>
    Done (handle_async_message_tail rbuf if_packet_info'
            (with_io_impl
               (print_msg
                  (UHD_MSG msg_error [Str "Error (handle_async_message): "; Str what])
                  (_io_impl self))
               self))
  | UnpackThrew ForeignException _ => Threw ForeignException self
  end.

(** *** Sub-device specs *)

Definition rx_set_mux (conn : string) (dsp : rx_dsp_core_200) : rx_dsp_core_200 :=
  RxDsp (Some conn) (nsamps_per_packet dsp).

Definition rx_set_nsamps_per_packet (n : Z) (dsp : rx_dsp_core_200) : rx_dsp_core_200 :=
  RxDsp (rx_mux dsp) (Some n).

(** [for (size_t i = 0; i < spec.size(); i++)] of [update_rx_subdev_spec],
    from index [i] on; [entries] is [spec] from [spec[i]] on. *)
Fixpoint rx_mux_loop (entries : list subdev_spec_pair_t) (i : nat)
    (self : b100_impl X R) : outcome (b100_impl X R) :=
  match entries with
  | [] => Done self
  | entry :: rest =>
    match _tree self !! rx_connection_path entry with
    | None => Threw (lookup_error (rx_connection_path entry)) self
    | Some conn =>
      match _rx_dsps self !! i with
      | None => Undefined self
      | Some dsp =>
        rx_mux_loop rest (S i)
          (with_rx_dsps (<[i := rx_set_mux conn dsp]> (_rx_dsps self)) self)
      end
    end
  end.

(** [for (size_t i = 0; i < recv_handler.size(); i++)], with [n] indices
    left to visit from [i] on. *)
Fixpoint rx_bind_loop (n : nat) (i : nat) (self : b100_impl X R)
    : outcome (b100_impl X R) :=
  match n with
  | 0 => Done self
  | S n' =>
    match _rx_dsps self !! i, get_max_recv_samps_per_packet self with
    | None, _ => Undefined self
    | Some _, None => Undefined self
    | Some dsp, Some nsamps =>
      let self1 :=
        with_rx_dsps (<[i := rx_set_nsamps_per_packet nsamps dsp]> (_rx_dsps self)) self in
      let h1 := set_xport_chan_get_buff i (BindGetRecvBuff i)
                  (recv_handler (_io_impl self1)) in
      let h2 := set_overflow_handler i (BindHandleOverflow i) h1 in
      rx_bind_loop n' (S i) (with_io_impl (with_recv_handler h2 (_io_impl self1)) self1)
    end
  end.

Definition update_rx_subdev_spec (spec : list subdev_spec_pair_t)
    (self : b100_impl X R) : outcome (b100_impl X R) :=
  (* sanity checking *)
  match validate_subdev_spec (_tree self) spec "rx" with
  | Some e => Threw e self
  | None =>
    (* setup mux for this spec *)
    match rx_mux_loop spec 0 self with
    | Done self1 =>
      (* resize for the new occupancy *)
      let self2 :=
        with_io_impl
          (with_recv_handler
             (handler_resize (length spec) (recv_handler (_io_impl self1)))
             (_io_impl self1))
          self1 in
      (* bind new callbacks for the handler *)
      rx_bind_loop (length (recv_handler (_io_impl self2))) 0 self2
    | failed => failed
    end
  end.

Fixpoint tx_bind_loop (n : nat) (i : nat) (self : b100_impl X R) : b100_impl X R :=
  match n with
  | 0 => self
  | S n' =>
    tx_bind_loop n' (S i)
      (with_io_impl
         (with_send_handler
            (set_xport_chan_get_buff i BindGetSendBuff (send_handler (_io_impl self)))
            (_io_impl self))
         self)
  end.

Definition update_tx_subdev_spec (spec : list subdev_spec_pair_t)
    (self : b100_impl X R) : outcome (b100_impl X R) :=
  (* sanity checking *)
  match validate_subdev_spec (_tree self) spec "tx" with
  | Some e => Threw e self
  | None =>
    (* set the mux for this spec *)
    match spec !! 0 with
    | None => Undefined self
    | Some spec_0 =>
      match _tree self !! tx_connection_path spec_0 with
      | None => Threw (lookup_error (tx_connection_path spec_0)) self
      | Some conn =>
        let self1 := with_tx_fe (TxFe (Some conn)) self in
        (* resize for the new occupancy *)
        let self2 :=
          with_io_impl
            (with_send_handler
               (handler_resize (length spec) (send_handler (_io_impl self1)))
               (_io_impl self1))
            self1 in
        (* bind new callbacks for the handler *)
        Done (tx_bind_loop (length (send_handler (_io_impl self2))) 0 self2)
      end
    end
  end.

(** [recv_async_msg]: [None] is the [false] return. *)
Definition recv_async_msg {T} (timeout : T) (self : b100_impl X R)
    : option (async_metadata_t R) * b100_impl X R :=
  match pop_with_timed_wait (async_msg_fifo (_io_impl self)) timeout with
  | None => (None, self)
  | Some (md, fifo') => (Some md, with_io_impl (with_fifo fifo' (_io_impl self)) self)
  end.

End B100Impl.

(** ** Transports to run the driver against *)

(** A scripted transport: [sx_pending] lists the frames still to arrive,
    each with the time that passes before it does (counted from the arrival
    before it); [sx_clock] is the time spent inside the transport so far.
    A call waits for the next frame, or gives up after [timeout]. *)
Record script_xport := ScriptXport {
  sx_clock : Z;
  sx_pending : list (Z * managed_recv_buffer);
  sx_frames : nat
}.

Definition script_get_recv_buff (timeout : Z) (x : script_xport)
  : option managed_recv_buffer * script_xport :=
  match sx_pending x with
  | [] => (None, ScriptXport (sx_clock x + timeout) [] (sx_frames x))
  | (delay, buff) :: rest =>
    if (delay <=? timeout)%Z
    then (Some buff, ScriptXport (sx_clock x + delay) rest (sx_frames x))
    else (None, ScriptXport (sx_clock x + timeout)
                  (((delay - timeout)%Z, buff) :: rest) (sx_frames x))
  end.

#[export] Instance script_zero_copy : zero_copy_if Z script_xport :=
  {| xport_get_recv_buff := script_get_recv_buff;
     get_num_recv_frames := sx_frames |}.

(** A transport that never runs dry: every call hands out a copy of
    [fx_buff] at once; [fx_calls] counts the calls. *)
Record flood_xport := FloodXport {
  fx_buff : managed_recv_buffer;
  fx_calls : nat
}.

#[export] Instance flood_zero_copy : zero_copy_if Z flood_xport :=
  {| xport_get_recv_buff := λ _ x, (Some (fx_buff x), FloodXport (fx_buff x) (S (fx_calls x)));
     get_num_recv_frames := λ _, 16 |}.

(** Time a call of [get_recv_buff] has spent in the scripted transport. *)
Definition time_spent {R} (before after : io_impl script_xport R) : Z :=
  (sx_clock (data_transport after) - sx_clock (data_transport before))%Z.

(** Modelled from the spec: [vrt::if_hdr_unpack_le] (generated code that is
    not among the sources), section 4.1: decoding "fails with
    MalformedHeaderError when the buffer is shorter than the minimum header
    or declares inconsistent flag combinations (e.g. timestamp fields
    absent but flagged present)".  The header word carries the packet type
    in bits 31-29, the stream-id flag in bit 28, the integer and fractional
    timestamp flags in bits 23-22 and 21-20; the fields follow in that
    order, the fractional timestamp taking two words.  A failed decode
    leaves its argument as it found it. *)
Definition if_hdr_unpack_model (rbuf : managed_recv_buffer) (info : if_packet_info_t)
  : unpack_result :=
  let hdr := wtohx_at rbuf 0 in
  let with_sid := Z.testbit hdr 28 in
  let with_tsi := negb (Z.land (Z.shiftr hdr 22) 3 =? 0)%Z in
  let with_tsf := negb (Z.land (Z.shiftr hdr 20) 3 =? 0)%Z in
  let sid_at := 1 in
  let tsi_at := if with_sid then 2 else 1 in
  let tsf_at := if with_tsi then S tsi_at else tsi_at in
  let hdr_words := if with_tsf then S (S tsf_at) else tsf_at in
  if (num_packet_words32 info <? 1)%Z then
    UnpackThrew (StdException "bad vrt header or packet fragment") info
  else if (num_packet_words32 info <? Z.of_nat hdr_words)%Z then
    UnpackThrew (StdException "bad vrt header or packet fragment") info
  else
    Unpacked
      (IfPacketInfo (Z.shiftr hdr 29) (num_packet_words32 info)
         (if with_sid then wtohx_at rbuf sid_at else sid info)
         with_tsi (if with_tsi then wtohx_at rbuf tsi_at else tsi info)
         with_tsf
         (if with_tsf
          then Z.lor (Z.shiftl (wtohx_at rbuf tsf_at) 32) (wtohx_at rbuf (S tsf_at))
          else tsf info)).

(** Modelled from the spec: [sph::get_context_code] (its header is not
    among the sources), "event code derived from packet context bits": the
    low byte of the first payload word of a packet with a stream id. *)
Definition get_context_code_model (rbuf : managed_recv_buffer)
    (info : if_packet_info_t) : Z :=
  Z.land (wtohx_at rbuf 2) 255.

(** ** Sample data *)

(** The [n]-th of a run of event records. *)
Definition event_nr (n : nat) : async_metadata_t unit :=
  AsyncMetadata 0 false (TimeSpec 0 0 ()) (Z.of_nat n).

(** A three-word data frame: header word, stream id, one payload word. *)
Definition data_frame (stream_id payload : Z) : managed_recv_buffer :=
  ManagedRecvBuffer [Z.shiftl 1 28 + 3; stream_id; payload]%Z 12.

(** A freshly constructed two-channel [io_impl] over a scripted transport
    with 16 receive frames. *)
Definition two_channels (pending : list (Z * managed_recv_buffer))
  : io_impl script_xport unit :=
  io_impl_new (T:=Z) (ScriptXport 0 pending 16) 2.

(** The same over the transport that never runs dry. *)
Definition two_channels_flooded (buff : managed_recv_buffer)
  : io_impl flood_xport unit :=
  io_impl_new (T:=Z) (FloodXport buff 0) 2.

(** Modelled from the spec: [validate_subdev_spec] (its source is not among
    the sources), section 4.7: "fails with InvalidSpecError if a referenced
    sub-device/connection does not exist". *)
Definition validate_subdev_spec_model (tree : gmap (list string) string)
    (spec : list subdev_spec_pair_t) (direction : string) : option exception :=
  if forallb
       (λ e, bool_decide
               (is_Some (tree !! (root ++ [db_name e; direction +:+ "_frontends";
                                           sd_name e; "connection"]))))
       spec
  then None
  else Some (StdException "InvalidSpecError").

(** Modelled from the spec: [otw_type_t::get_sample_size] (its header is
    not among the sources): a complex sample of two [width]-bit numbers, in
    bytes. *)
Definition get_sample_size_model (t : otw_type_t) : Z := (width t * 2 / 8)%Z.

(** The message handler with the decoder and the context code above, a
    64-bit [size_t], transmit-async stream id 1, data packet type 0 and the
    event codes underflow 2, underflow-in-packet 16, sequence error 4,
    sequence-error-in-burst 32. *)
Definition handle_async_message_model {X R}
  : if_packet_info_t → managed_recv_buffer → b100_impl X R → outcome (b100_impl X R) :=
  handle_async_message 64 1 0 2 16 4 32 if_hdr_unpack_model get_context_code_model.

(** A device with one receive DSP, 16-bit samples, and the front-ends
    A:0 (connection IQ) and A:1 (connection QI) in both directions of its
    property tree. *)
Definition sample_tree : gmap (list string) string :=
  list_to_map
    [ (root ++ ["A"; "rx_frontends"; "0"; "connection"], "IQ");
      (root ++ ["A"; "rx_frontends"; "1"; "connection"], "QI");
      (root ++ ["A"; "tx_frontends"; "0"; "connection"], "IQ");
      (root ++ ["A"; "tx_frontends"; "1"; "connection"], "QI") ].

Definition sample_device : b100_impl script_xport unit :=
  B100 sample_tree [RxDsp None None; RxDsp None None] (TxFe None)
       (OtwType 16 0 BO_LITTLE_ENDIAN) (OtwType 16 0 BO_LITTLE_ENDIAN) ()
       (two_channels []).

(** An out-of-band frame of a single word that announces a stream id: its
    decoding fails. *)
Definition runt_frame : managed_recv_buffer :=
  ManagedRecvBuffer [Z.shiftl 5 28 + 1]%Z 4.

(** An underflow report: context packet with stream id 1 and context code 2. *)
Definition underflow_frame : managed_recv_buffer :=
  ManagedRecvBuffer [Z.shiftl 5 28 + 3; 1; 2]%Z 12.

(** What decoding [underflow_frame] leaves in an [if_packet_info_t]. *)
Definition underflow_info : if_packet_info_t :=
  IfPacketInfo 2 3 1 false 0 false 0.

(** ** Callers *)

(** The state an outcome carries. *)
Definition outcome_state {S : Type} (o : outcome S) : S :=
  match o with
  | Done s | Threw _ s | Undefined s => s
  end.

(** A caller's run of [get_recv_buff] calls, one after the other on the
    same [io_impl], as the receive packet handler issues them through the
    callbacks bound in [update_rx_subdev_spec]: each call has its index and
    timeout (and its fuel); the results are listed in call order. *)
Fixpoint recv_calls {T X R : Type} `{!zero_copy_if T X} (B100_RX_SID_BASE w : Z)
    (calls : list (nat * nat * T)) (self : io_impl X R)
    : list recv_result * io_impl X R :=
  match calls with
  | [] => ([], self)
  | (fuel, index, timeout) :: calls' =>
    let '(r, self1) := get_recv_buff B100_RX_SID_BASE w fuel index timeout self in
    let '(rs, self2) := recv_calls B100_RX_SID_BASE w calls' self1 in
    (r :: rs, self2)
  end.

(** Two device states that differ at most in the message fifo and in what
    has been printed. *)
Definition same_but_fifo_and_log {X R : Type} (a b : b100_impl X R) : Prop :=
  _tree a = _tree b ∧ _rx_dsps a = _rx_dsps b ∧ _tx_fe a = _tx_fe b
  ∧ _rx_otw_type a = _rx_otw_type b ∧ _tx_otw_type a = _tx_otw_type b
  ∧ fpga_clock_rate a = fpga_clock_rate b
  ∧ data_transport (_io_impl a) = data_transport (_io_impl b)
  ∧ _buffs_queue (_io_impl a) = _buffs_queue (_io_impl b)
  ∧ recv_handler (_io_impl a) = recv_handler (_io_impl b)
  ∧ send_handler (_io_impl a) = send_handler (_io_impl b).

(** A burst of [n] frames for channel 1 (stream id 3), one tick apart,
    numbered in their payload. *)
Definition burst (n : nat) : list (Z * managed_recv_buffer) :=
  (λ k, (1%Z, data_frame 3 (Z.of_nat k))) <$> seq 0 n.

(** ** What the demultiplexer is expected to do, in the spec's words *)

(** Section 4.3, step 5, over a run of frames: each frame "pushed onto that
    channel's queue (evicting the oldest entry if full)", in the order
    given. *)
Definition requeue_all (B100_RX_SID_BASE w : Z) (frames : list managed_recv_buffer)
    (qs : list (bounded_buffer managed_recv_buffer))
  : list (bounded_buffer managed_recv_buffer) :=
  foldl (λ qs buff,
           alter (push_with_pop_on_full buff) (rx_index_of B100_RX_SID_BASE w buff) qs)
        qs frames.

(** The transport in state [x] hands out the frames [frames], one call
    after the other, and is then in state [x']. *)
Fixpoint delivers {T X : Type} `{!zero_copy_if T X} (timeout : T) (x : X)
    (frames : list managed_recv_buffer) (x' : X) : Prop :=
  match frames with
  | [] => x = x'
  | buff :: rest =>
    ∃ x1, xport_get_recv_buff timeout x = (Some buff, x1) ∧ delivers timeout x1 rest x'
  end.

(** The time the arrivals [l] of a script take, one after the other. *)
Definition total_delay (l : list (Z * managed_recv_buffer)) : Z :=
  foldr (λ p acc, p.1 + acc)%Z 0%Z l.

(** * Properties *)

(** ** Machine integers *)

Lemma wrap_range w z : (0 <= w)%Z → (0 <= wrap w z < 2 ^ w)%Z.
Proof. intros Hw. unfold wrap. apply Z.mod_pos_bound. by apply Z.pow_pos_nonneg. Qed.

Lemma wrap_small w z : (0 <= z < 2 ^ w)%Z → wrap w z = z.
Proof. intros Hz. unfold wrap. by apply Z.mod_small. Qed.

Lemma wrap_neg w z : (- 2 ^ w <= z < 0)%Z → wrap w z = (z + 2 ^ w)%Z.
Proof.
  intros Hz. unfold wrap.
  rewrite <- (Z.mod_small (z + 2 ^ w) (2 ^ w)) by lia.
  rewrite <- (Z_mod_plus_full z 1 (2 ^ w)). f_equal. lia.
Qed.

Lemma wtohx_at_range buff i : (0 <= wtohx_at buff i < 2 ^ 32)%Z.
Proof. by apply wrap_range. Qed.

(** ** The bounded buffer *)

Section BoundedBufferFacts.
Context {A : Type}.
Implicit Types (q : bounded_buffer A) (l : list A).

Lemma push_capacity x q : bb_capacity (push_with_pop_on_full x q) = bb_capacity q.
Proof. unfold push_with_pop_on_full. by destruct (bb_full q). Qed.

Lemma push_all_capacity l q : bb_capacity (push_all l q) = bb_capacity q.
Proof.
  revert q. induction l as [|x l IH]; intros q; simpl; [done|].
  by rewrite IH, push_capacity.
Qed.

(** A push keeps the newest [capacity] records of what was there followed
    by the new one. *)
Lemma push_elems x q :
  bb_wf q →
  bb_elems (push_with_pop_on_full x q)
  = drop (length (bb_elems q ++ [x]) - bb_capacity q) (bb_elems q ++ [x]).
Proof.
  intros [Hpos Hlen]. unfold push_with_pop_on_full, bb_full.
  rewrite length_app. simpl. case_bool_decide as Hfull; simpl.
  - assert (length (bb_elems q) = bb_capacity q) as Heq by lia.
    replace (length (bb_elems q) + 1 - bb_capacity q) with 1 by lia.
    destruct (bb_elems q) as [|y ys]; simpl in *; [lia|]. by rewrite drop_0.
  - replace (length (bb_elems q) + 1 - bb_capacity q) with 0 by lia. done.
Qed.

Lemma push_wf x q : bb_wf q → bb_wf (push_with_pop_on_full x q).
Proof.
  intros Hwf. pose proof (push_elems x q Hwf) as He. destruct Hwf as [Hpos Hlen].
  split; rewrite push_capacity; [done|].
  rewrite He, length_drop, length_app. simpl. lia.
Qed.

Lemma push_all_elems l q :
  bb_wf q →
  bb_wf (push_all l q) ∧
  bb_elems (push_all l q)
  = drop (length (bb_elems q ++ l) - bb_capacity q) (bb_elems q ++ l).
Proof.
  revert q. induction l as [|x l IH]; intros q Hwf; simpl.
  - split; [done|]. destruct Hwf as [_ Hlen]. rewrite app_nil_r.
    replace (length (bb_elems q) - bb_capacity q) with 0 by lia. done.
  - destruct (IH _ (push_wf x q Hwf)) as [Hwf' He]. split; [done|].
    rewrite He, push_capacity, (push_elems x q Hwf).
    destruct Hwf as [Hpos Hlen].
    rewrite <- drop_app_le by (rewrite length_app; simpl; lia).
    rewrite drop_drop, <- (assoc_L (++) (bb_elems q) [x] l). simpl.
    f_equal. rewrite length_drop, !length_app. simpl. lia.
Qed.

Lemma pop_n_elems n q :
  n ≤ length (bb_elems q) →
  pop_n n q = (Some <$> take n (bb_elems q),
               BoundedBuffer (bb_capacity q) (drop n (bb_elems q))).
Proof.
  revert q. induction n as [|n IH]; intros [c els] Hn; simpl in *.
  - by rewrite drop_0.
  - destruct els as [|x els]; simpl in *; [lia|].
    unfold pop_with_haste. simpl. rewrite IH by (simpl; lia). done.
Qed.

End BoundedBufferFacts.

(** C4.  The asynchronous message fifo built by the [io_impl] constructor
    is 100 deep.  A push is a total function of the fifo (it cannot block
    or fail) that evicts the oldest record of a full fifo: whatever the
    fifo held, once capacity + 1 records have been pushed, capacity pops
    return the newest capacity of them, in arrival order, and leave the
    fifo empty. *)
Theorem async_msg_fifo_keeps_newest {T X R : Type} `{!zero_copy_if T X}
    (xport : X) (recv_width : nat)
    (fifo : bounded_buffer (async_metadata_t R)) (l : list (async_metadata_t R))
    (Hcap : bb_capacity fifo
            = bb_capacity (async_msg_fifo (io_impl_new (T:=T) (R:=R) xport recv_width)))
    (Hfill : length (bb_elems fifo) ≤ bb_capacity fifo)
    (Hl : length l = S (bb_capacity fifo)) :
  bb_capacity fifo = 100 ∧
  bb_elems (async_msg_fifo (io_impl_new (T:=T) (R:=R) xport recv_width)) = [] ∧
  pop_n (bb_capacity fifo) (push_all l fifo)
  = (Some <$> tail l, BoundedBuffer (bb_capacity fifo) []).
Proof.
  split; [exact Hcap|]. split; [reflexivity|].
  assert (bb_wf fifo) as Hwf by (split; [rewrite Hcap; simpl; lia | done]).
  destruct (push_all_elems l fifo Hwf) as [[_ Hlen'] He].
  assert (bb_elems (push_all l fifo) = tail l) as Htl.
  { rewrite He. destruct l as [|x l]; simpl in *; [lia|].
    rewrite length_app. simpl.
    replace (length (bb_elems fifo) + S (length l) - bb_capacity fifo)
      with (length (bb_elems fifo) + 1) by lia.
    rewrite drop_app_add'; done. }
  rewrite pop_n_elems; rewrite ?push_all_capacity, ?Htl.
  - assert (length (tail l) = bb_capacity fifo) as Hn
        by (destruct l; simpl in *; lia).
    rewrite <- Hn, firstn_all, drop_all. done.
  - destruct l; simpl in *; lia.
Qed.

Lemma async_msg_fifo_keeps_newest_witness :
  pop_n 100 (push_all (event_nr <$> seq 0 101) (bb_new 100))
  = (Some <$> (event_nr <$> seq 1 100), BoundedBuffer 100 []).
Proof.
  exact (proj2 (proj2
    (async_msg_fifo_keeps_newest (T:=Z) (ScriptXport 0 [] 16) 1
       (bb_new 100) (event_nr <$> seq 0 101)
       eq_refl ltac:(simpl; lia) eq_refl))).
Defined.

(** ** The receive demultiplexer *)

Section GetRecvBuffFacts.
Context {T X R : Type} `{!zero_copy_if T X}.
Variable B100_RX_SID_BASE : Z.
Variable w : Z.

Abbreviation rx_index := (rx_index_of B100_RX_SID_BASE w).
Abbreviation recv := (get_recv_buff (R:=R) B100_RX_SID_BASE w).
Abbreviation routed_from := (queues_routed_from B100_RX_SID_BASE w).
Abbreviation routed1 := (queue_routed B100_RX_SID_BASE w).

Implicit Types (self : io_impl X R) (buff : managed_recv_buffer)
         (q : bounded_buffer managed_recv_buffer)
         (qs : list (bounded_buffer managed_recv_buffer)).

Lemma routed_from_lookup k qs :
  routed_from k qs = true ↔ ∀ j q, qs !! j = Some q → routed1 (k + j) q = true.
Proof.
  revert k. induction qs as [|q0 qs IH]; intros k; simpl.
  - split; [intros _ j q Hj; by destruct j | done].
  - rewrite andb_true_iff, IH. split.
    + intros [H0 Hrest] [|j] q Hj; simpl in Hj.
      * injection Hj as <-. by rewrite Nat.add_0_r.
      * replace (k + S j) with (S k + j) by lia. by apply Hrest.
    + intros Hall. split.
      * specialize (Hall 0 q0 eq_refl). by rewrite Nat.add_0_r in Hall.
      * intros j q Hj. replace (S k + j) with (k + S j) by lia. by apply Hall.
Qed.

Lemma routed_from_insert k qs j q :
  routed_from k qs = true → routed1 (k + j) q = true →
  routed_from k (<[j := q]> qs) = true.
Proof.
  rewrite !routed_from_lookup. intros Hall Hq i q' Hi.
  destruct (decide (i = j)) as [->|Hne].
  - pose proof (lookup_lt_Some _ _ _ Hi) as Hlt. rewrite length_insert in Hlt.
    rewrite list_lookup_insert_eq in Hi by done. by injection Hi as <-.
  - rewrite list_lookup_insert_ne in Hi by done. by apply Hall.
Qed.

Lemma routed1_push j buff q :
  routed1 j q = true → rx_index buff = j →
  routed1 j (push_with_pop_on_full buff q) = true.
Proof.
  unfold queue_routed, push_with_pop_on_full. rewrite !forallb_forall.
  intros Hq Hb buff' Hin. apply bool_decide_eq_true.
  assert (In buff' (bb_elems q ++ [buff])) as Hin'.
  { destruct (bb_full q); simpl in Hin; [|done].
    apply in_app_iff in Hin as [Hin|Hin]; apply in_app_iff; [left|by right].
    destruct (bb_elems q); simpl in *; [done | by right]. }
  apply in_app_iff in Hin' as [Hin'|[<-|[]]]; [|done].
  specialize (Hq _ Hin'). by apply bool_decide_eq_true in Hq.
Qed.

Lemma routed1_pop j buff q q' :
  routed1 j q = true → pop_with_haste q = Some (buff, q') →
  rx_index buff = j ∧ routed1 j q' = true.
Proof.
  unfold queue_routed, pop_with_haste. destruct (bb_elems q) as [|b rest]; [done|].
  simpl. rewrite andb_true_iff, bool_decide_eq_true.
  intros [Hb Hrest] [= <- <-]. done.
Qed.

Lemma pop_with_haste_empty q : bb_elems q = [] → pop_with_haste q = None.
Proof. unfold pop_with_haste. by intros ->. Qed.

(** The vector of queues keeps its length, no access leaves it when the
    requested index is inside, the message log only grows, and routed
    queues stay routed and only give out buffers of their own channel. *)
Lemma get_recv_buff_sound fuel index timeout self r self' :
  recv fuel index timeout self = (r, self') →
  length (_buffs_queue self') = length (_buffs_queue self)
  ∧ async_msg_fifo self' = async_msg_fifo self
  ∧ (∃ more, msgs self' = msgs self ++ more)
  ∧ (index < length (_buffs_queue self) → r ≠ OutOfRange)
  ∧ (routed B100_RX_SID_BASE w self →
     routed B100_RX_SID_BASE w self'
     ∧ ∀ buff, r = Returned (Some buff) → rx_index buff = index).
Proof.
  revert self. induction fuel as [|fuel IH]; intros self Hrun; simpl in Hrun.
  { injection Hrun as <- <-. split_and!; try done. by exists []; rewrite app_nil_r. }
  destruct (_buffs_queue self !! index) as [q|] eqn:Hq.
  2:{ injection Hrun as <- <-. apply lookup_ge_None in Hq.
      split_and!; try done; [by exists []; rewrite app_nil_r | lia]. }
  destruct (pop_with_haste q) as [[buff q']|] eqn:Hpop.
  { injection Hrun as <- <-. simpl. rewrite length_insert.
    split_and!; try done; [by exists []; rewrite app_nil_r |].
    intros Hr. unfold routed in *. simpl.
    pose proof (proj1 (routed_from_lookup 0 _) Hr index q Hq) as Hrq.
    destruct (routed1_pop _ _ _ _ Hrq Hpop) as [Hb Hq'].
    split; [by apply routed_from_insert | by intros buff' [= <-]]. }
  destruct (xport_get_recv_buff timeout (data_transport self)) as [[buff|] xport'] eqn:Hx.
  2:{ injection Hrun as <- <-. simpl.
      split_and!; try done. by exists []; rewrite app_nil_r. }
  case_bool_decide as Hsame.
  { injection Hrun as <- <-. simpl.
    split_and!; try done; [by exists []; rewrite app_nil_r |].
    intros Hr. split; [done | by intros buff' [= <-]]. }
  case_bool_decide as Hin.
  - destruct (_buffs_queue self !! rx_index buff) as [q_rx|] eqn:Hqrx.
    2:{ apply lookup_ge_None in Hqrx. lia. }
    apply IH in Hrun as (Hlen & Hfifo & [more Hmsgs] & Hrange & Hrouted).
    simpl in *. rewrite length_insert in *.
    split_and!; try done; [by exists more |].
    intros Hr. apply Hrouted. unfold routed in *. simpl.
    apply routed_from_insert; [done|]. apply routed1_push; [|done].
    exact (proj1 (routed_from_lookup 0 _) Hr _ _ Hqrx).
  - apply IH in Hrun as (Hlen & Hfifo & [more Hmsgs] & Hrange & Hrouted).
    simpl in *. split_and!; try done.
    exists (unknown_sid_msg buff :: more). by rewrite Hmsgs, <- app_assoc.
Qed.

(** One turn of the loop on a frame for another, valid channel: the
    frame goes to the back of that channel's queue and the loop goes on. *)
Lemma get_recv_buff_requeue fuel index timeout self q buff xport' q_rx :
  _buffs_queue self !! index = Some q → bb_elems q = [] →
  xport_get_recv_buff timeout (data_transport self) = (Some buff, xport') →
  rx_index buff ≠ index →
  _buffs_queue self !! rx_index buff = Some q_rx →
  recv (S fuel) index timeout self
  = recv fuel index timeout
      (with_queues (<[rx_index buff := push_with_pop_on_full buff q_rx]> (_buffs_queue self))
         (with_transport xport' self)).
Proof.
  intros Hq Hempty Hx Hne Hrx. simpl.
  rewrite Hq, (pop_with_haste_empty _ Hempty), Hx.
  rewrite bool_decide_eq_false_2 by done.
  rewrite bool_decide_eq_true_2 by (by eapply lookup_lt_Some).
  by rewrite Hrx.
Qed.

(** One turn of the loop on a frame whose index is outside the vector. *)
Lemma get_recv_buff_discard fuel index timeout self q buff xport' :
  _buffs_queue self !! index = Some q → bb_elems q = [] →
  xport_get_recv_buff timeout (data_transport self) = (Some buff, xport') →
  length (_buffs_queue self) ≤ rx_index buff →
  recv (S fuel) index timeout self
  = recv fuel index timeout
      (print_msg (unknown_sid_msg buff) (with_transport xport' self)).
Proof.
  intros Hq Hempty Hx Hout. simpl.
  rewrite Hq, (pop_with_haste_empty _ Hempty), Hx.
  pose proof (lookup_lt_Some _ _ _ Hq) as Hidx.
  rewrite bool_decide_eq_false_2 by lia.
  by rewrite bool_decide_eq_false_2 by lia.
Qed.

Lemma alter_as_insert {A : Type} (f : A → A) (l : list A) (i : nat) (x : A) :
  l !! i = Some x → alter f i l = <[i := f x]> l.
Proof.
  intros Hx. apply list_eq. intros m. destruct (decide (m = i)) as [->|Hne].
  - rewrite list_lookup_alter_eq, Hx.
    by rewrite list_lookup_insert_eq by (by eapply lookup_lt_Some).
  - by rewrite list_lookup_alter_ne, list_lookup_insert_ne by done.
Qed.

(** A request for channel [i], its queue empty, while the transport hands
    out frames for other, valid channels and then a frame for [i]: every
    frame before the last goes onto its channel's queue, the last one is
    returned. *)
Lemma get_recv_buff_requeue_run (i fuel : nat) (timeout : T)
    (pkt_i : managed_recv_buffer) (x1 x2 : X) q_i frames : ∀ self,
  _buffs_queue self !! i = Some q_i → bb_elems q_i = [] →
  Forall (λ buff, rx_index buff ≠ i ∧ rx_index buff < length (_buffs_queue self)) frames →
  delivers timeout (data_transport self) frames x1 →
  xport_get_recv_buff timeout x1 = (Some pkt_i, x2) →
  rx_index pkt_i = i →
  recv (S (length frames) + fuel) i timeout self
  = (Returned (Some pkt_i),
     with_transport x2
       (with_queues (requeue_all B100_RX_SID_BASE w frames (_buffs_queue self)) self)).
Proof.
  induction frames as [|buff frames IH]; intros self Hqi Hei Hframes Hdeliv Hx2 Hpi.
  - simpl in Hdeliv. subst x1. simpl.
    rewrite Hqi, (pop_with_haste_empty _ Hei), Hx2.
    rewrite bool_decide_eq_true_2 by done. by destruct self.
  - apply Forall_cons in Hframes as [[Hne Hin] Hframes].
    destruct Hdeliv as (x' & Hx & Hdeliv).
    destruct (lookup_lt_is_Some_2 _ _ Hin) as [q_rx Hrx].
    change (S (length (buff :: frames)) + fuel) with (S (S (length frames) + fuel)).
    rewrite (get_recv_buff_requeue _ _ _ _ q_i buff x' q_rx) by done.
    rewrite IH; try done.
    + unfold requeue_all. simpl. by rewrite (alter_as_insert _ _ _ _ Hrx).
    + simpl. by rewrite list_lookup_insert_ne.
    + simpl. by rewrite length_insert.
Qed.

(** C1.  A request for channel [i], its queue empty, while the transport
    hands out frames for other, valid channels and then a frame for [i],
    returns that last frame; every frame before it has been pushed onto
    the queue of its own channel, in arrival order (for a single such frame
    and channel [j]: queue [j] is [push_with_pop_on_full] of the frame onto
    what it held); nothing is printed.  A following request for a channel
    [j] whose queue then holds frames returns the oldest of them, removes it
    from the queue and leaves the transport as the first request left it.
    In general, as long as every queue holds frames of its own channel
    only, it stays so and a request for channel [k] only ever returns a
    frame of channel [k]. *)
Theorem get_recv_buff_requeues_other_channel
    (self s0 : io_impl X R) (i j k : nat)
    (q_i q_j' : bounded_buffer managed_recv_buffer)
    (frames waiting : list managed_recv_buffer)
    (pkt_i oldest : managed_recv_buffer) (x1 x2 : X)
    (timeout timeout' t0 : T) (fuel fuel' fuel0 : nat)
    (Hqi : _buffs_queue self !! i = Some q_i) (Hei : bb_elems q_i = [])
    (Hframes : Forall (λ buff, rx_index buff ≠ i
                               ∧ rx_index buff < length (_buffs_queue self)) frames)
    (Hdeliv : delivers timeout (data_transport self) frames x1)
    (Hx2 : xport_get_recv_buff timeout x1 = (Some pkt_i, x2))
    (Hpi : rx_index pkt_i = i)
    (Hqj' : requeue_all B100_RX_SID_BASE w frames (_buffs_queue self) !! j = Some q_j')
    (Hhead : bb_elems q_j' = oldest :: waiting)
    (Hs0 : routed B100_RX_SID_BASE w s0) :
  let first := recv (S (length frames) + fuel) i timeout self in
  let second := recv (S fuel') j timeout' first.2 in
  first.1 = Returned (Some pkt_i)
  ∧ _buffs_queue first.2 = requeue_all B100_RX_SID_BASE w frames (_buffs_queue self)
  ∧ (∀ pkt_j q_j, frames = [pkt_j] → _buffs_queue self !! rx_index pkt_j = Some q_j →
       _buffs_queue first.2
       = <[rx_index pkt_j := push_with_pop_on_full pkt_j q_j]> (_buffs_queue self))
  ∧ data_transport first.2 = x2
  ∧ msgs first.2 = msgs self
  ∧ second.1 = Returned (Some oldest)
  ∧ _buffs_queue second.2 !! j = Some (BoundedBuffer (bb_capacity q_j') waiting)
  ∧ data_transport second.2 = x2
  ∧ routed B100_RX_SID_BASE w (recv fuel0 k t0 s0).2
  ∧ ∀ buff, (recv fuel0 k t0 s0).1 = Returned (Some buff) → rx_index buff = k.
Proof.
  intros first second.
  assert (first
          = (Returned (Some pkt_i),
             with_transport x2
               (with_queues (requeue_all B100_RX_SID_BASE w frames (_buffs_queue self))
                  self))) as Hfirst
    by (by eapply get_recv_buff_requeue_run).
  assert (second
          = (Returned (Some oldest),
             with_queues
               (<[j := BoundedBuffer (bb_capacity q_j') waiting]>
                  (requeue_all B100_RX_SID_BASE w frames (_buffs_queue self)))
               first.2)) as Hsecond.
  { unfold second. rewrite Hfirst. simpl.
    rewrite Hqj'. unfold pop_with_haste. by rewrite Hhead. }
  rewrite Hsecond, Hfirst. simpl.
  split_and!; try done.
  - intros pkt_j q_j -> Hq_j. unfold requeue_all. simpl. by apply alter_as_insert.
  - rewrite list_lookup_insert_eq; [done | by eapply lookup_lt_Some].
  - destruct (recv fuel0 k t0 s0) as [r s'] eqn:Hrun.
    by apply get_recv_buff_sound in Hrun as (_ & _ & _ & _ & Hr); apply Hr.
  - destruct (recv fuel0 k t0 s0) as [r s'] eqn:Hrun.
    by apply get_recv_buff_sound in Hrun as (_ & _ & _ & _ & Hr); apply Hr.
Qed.

(** C5.  When the queue of the requested channel is empty and the
    transport delivers a frame whose index is outside the vector of
    queues, the call goes on as its loop does from the state in which the
    transport has moved on, one error message has been printed and every
    queue is as it was: the frame is neither queued nor returned, and the
    call still ends as a call of [get_recv_buff] does, with a buffer or a
    null pointer. *)
Theorem get_recv_buff_discards_unroutable
    (self : io_impl X R) (index : nat) (q : bounded_buffer managed_recv_buffer)
    (buff : managed_recv_buffer) (xport' : X) (timeout : T) (fuel : nat)
    (Hq : _buffs_queue self !! index = Some q) (Hempty : bb_elems q = [])
    (Hx : xport_get_recv_buff timeout (data_transport self) = (Some buff, xport'))
    (Hout : length (_buffs_queue self) ≤ rx_index buff) :
  let next := print_msg (unknown_sid_msg buff) (with_transport xport' self) in
  recv (S fuel) index timeout self = recv fuel index timeout next
  ∧ _buffs_queue next = _buffs_queue self
  ∧ data_transport next = xport'
  ∧ msgs next = msgs self ++ [unknown_sid_msg buff]
  ∧ msg_kind (unknown_sid_msg buff) = msg_error
  ∧ (∃ more, msgs (recv (S fuel) index timeout self).2
             = msgs self ++ unknown_sid_msg buff :: more)
  ∧ (recv (S fuel) index timeout self).1 ≠ OutOfRange.
Proof.
  intros next.
  assert (recv (S fuel) index timeout self = recv fuel index timeout next) as Hstep
    by (by eapply get_recv_buff_discard).
  split_and!; try done.
  - rewrite Hstep. destruct (recv fuel index timeout next) as [r s'] eqn:Hrun.
    apply get_recv_buff_sound in Hrun as (_ & _ & [more Hm] & _).
    exists more. simpl. rewrite Hm. unfold next. simpl. by rewrite <- app_assoc.
  - destruct (recv (S fuel) index timeout self) as [r s'] eqn:Hrun.
    apply get_recv_buff_sound in Hrun as (_ & _ & _ & Hr & _). simpl.
    apply Hr. by eapply lookup_lt_Some.
Qed.

(** C9.  A frame whose stream id is below the receive base gets, by the
    wrap-around of the unsigned subtraction, the index
    2^w - (base - sid); with no more than 2^w - base queues this index
    fails the test against the number of queues, so the frame is dropped
    with the error message.  Whatever the stream ids of the frames, a
    call with a requested index inside the vector never accesses the
    vector of queues outside its bounds. *)
Theorem get_recv_buff_sid_below_base
    (self s0 : io_impl X R) (index index0 : nat)
    (q : bounded_buffer managed_recv_buffer)
    (buff : managed_recv_buffer) (xport' : X) (timeout t0 : T) (fuel fuel0 : nat)
    (Hbelow : (wtohx_at buff 1 < B100_RX_SID_BASE)%Z)
    (Hfit : (Z.of_nat (length (_buffs_queue self)) + B100_RX_SID_BASE <= 2 ^ w)%Z)
    (Hq : _buffs_queue self !! index = Some q) (Hempty : bb_elems q = [])
    (Hx : xport_get_recv_buff timeout (data_transport self) = (Some buff, xport'))
    (Hidx0 : index0 < length (_buffs_queue s0)) :
  Z.of_nat (rx_index buff) = (2 ^ w - (B100_RX_SID_BASE - wtohx_at buff 1))%Z
  ∧ length (_buffs_queue self) ≤ rx_index buff
  ∧ recv (S fuel) index timeout self
    = recv fuel index timeout
        (print_msg (unknown_sid_msg buff) (with_transport xport' self))
  ∧ (recv fuel0 index0 t0 s0).1 ≠ OutOfRange.
Proof.
  pose proof (wtohx_at_range buff 1) as Hsid.
  assert (Z.of_nat (rx_index buff)
          = (2 ^ w - (B100_RX_SID_BASE - wtohx_at buff 1))%Z) as Hval.
  { unfold rx_index_of. rewrite wrap_neg by lia. lia. }
  assert (length (_buffs_queue self) ≤ rx_index buff) as Hout by lia.
  split_and!; try done.
  - by eapply get_recv_buff_discard.
  - destruct (recv fuel0 index0 t0 s0) as [r s'] eqn:Hrun.
    apply get_recv_buff_sound in Hrun as (_ & _ & _ & Hr & _). by apply Hr.
Qed.

End GetRecvBuffFacts.

(** *** The demultiplexer at work: two channels, stream ids from 2 on *)

Lemma get_recv_buff_requeues_other_channel_witness :
  let self := two_channels [(1, data_frame 3 111); (1, data_frame 2 222)]%Z in
  let first := get_recv_buff 2 32 2 0 10%Z self in
  let second := get_recv_buff 2 32 1 1 10%Z first.2 in
  first.1 = Returned (Some (data_frame 2 222))
  ∧ _buffs_queue first.2 = requeue_all 2 32 [data_frame 3 111] (_buffs_queue self)
  ∧ (∀ pkt_j q_j, [data_frame 3 111] = [pkt_j] →
       _buffs_queue self !! rx_index_of 2 32 pkt_j = Some q_j →
       _buffs_queue first.2
       = <[rx_index_of 2 32 pkt_j := push_with_pop_on_full pkt_j q_j]> (_buffs_queue self))
  ∧ data_transport first.2 = ScriptXport 2 [] 16
  ∧ msgs first.2 = msgs self
  ∧ second.1 = Returned (Some (data_frame 3 111))
  ∧ _buffs_queue second.2 !! 1 = Some (BoundedBuffer 16 [])
  ∧ data_transport second.2 = ScriptXport 2 [] 16
  ∧ routed 2 32 (get_recv_buff 2 32 2 0 10%Z self).2
  ∧ ∀ buff, (get_recv_buff 2 32 2 0 10%Z self).1 = Returned (Some buff)
            → rx_index_of 2 32 buff = 0.
Proof.
  apply (get_recv_buff_requeues_other_channel 2 32
    (two_channels [(1, data_frame 3 111); (1, data_frame 2 222)]%Z)
    (two_channels [(1, data_frame 3 111); (1, data_frame 2 222)]%Z)
    0 1 0 (bb_new 16) (BoundedBuffer 16 [data_frame 3 111])
    [data_frame 3 111] [] (data_frame 2 222) (data_frame 3 111)
    (ScriptXport 1 [(1, data_frame 2 222)]%Z 16) (ScriptXport 2 [] 16)
    10%Z 10%Z 10%Z 0 0 2).
  - reflexivity.
  - reflexivity.
  - repeat constructor; vm_compute; lia.
  - eexists. split; reflexivity.
  - reflexivity.
  - reflexivity.
  - reflexivity.
  - reflexivity.
  - reflexivity.
Defined.

Lemma get_recv_buff_discards_unroutable_witness :
  let self := two_channels [(1, data_frame 7 111); (1, data_frame 2 222)]%Z in
  let next := print_msg (unknown_sid_msg (data_frame 7 111))
                (with_transport (ScriptXport 1 [(1, data_frame 2 222)]%Z 16) self) in
  get_recv_buff 2 32 2 0 10%Z self = get_recv_buff 2 32 1 0 10%Z next
  ∧ _buffs_queue next = _buffs_queue self
  ∧ data_transport next = ScriptXport 1 [(1, data_frame 2 222)]%Z 16
  ∧ msgs next = msgs self ++ [unknown_sid_msg (data_frame 7 111)]
  ∧ msg_kind (unknown_sid_msg (data_frame 7 111)) = msg_error
  ∧ (∃ more, msgs (get_recv_buff 2 32 2 0 10%Z self).2
             = msgs self ++ unknown_sid_msg (data_frame 7 111) :: more)
  ∧ (get_recv_buff 2 32 2 0 10%Z self).1 ≠ OutOfRange.
Proof.
  exact (get_recv_buff_discards_unroutable 2 32
    (two_channels [(1, data_frame 7 111); (1, data_frame 2 222)]%Z)
    0 (bb_new 16) (data_frame 7 111)
    (ScriptXport 1 [(1, data_frame 2 222)]%Z 16) 10%Z 1
    eq_refl eq_refl eq_refl ltac:(vm_compute; lia)).
Defined.

Lemma get_recv_buff_sid_below_base_witness :
  let self := two_channels [(1, data_frame 1 111); (1, data_frame 2 222)]%Z in
  Z.of_nat (rx_index_of 2 32 (data_frame 1 111)) = (2 ^ 32 - (2 - wtohx_at (data_frame 1 111) 1))%Z
  ∧ length (_buffs_queue self) ≤ rx_index_of 2 32 (data_frame 1 111)
  ∧ get_recv_buff 2 32 2 0 10%Z self
    = get_recv_buff 2 32 1 0 10%Z
        (print_msg (unknown_sid_msg (data_frame 1 111))
           (with_transport (ScriptXport 1 [(1, data_frame 2 222)]%Z 16) self))
  ∧ (get_recv_buff 2 32 5 1 10%Z self).1 ≠ OutOfRange.
Proof.
  exact (get_recv_buff_sid_below_base 2 32
    (two_channels [(1, data_frame 1 111); (1, data_frame 2 222)]%Z)
    (two_channels [(1, data_frame 1 111); (1, data_frame 2 222)]%Z)
    0 1 (bb_new 16) (data_frame 1 111)
    (ScriptXport 1 [(1, data_frame 2 222)]%Z 16) 10%Z 10%Z 1 5
    ltac:(vm_compute; reflexivity) ltac:(vm_compute; discriminate)
    eq_refl eq_refl eq_refl ltac:(vm_compute; lia)).
Defined.

(** *** Time spent in the loop *)

Section ScriptedRuns.
Context {R : Type}.
Variable B100_RX_SID_BASE : Z.
Variable w : Z.

Abbreviation recv_s := (get_recv_buff (T:=Z) (X:=script_xport) (R:=R) B100_RX_SID_BASE w).

(** Over a scripted transport the loop returns before it has used one
    unit of fuel more than there are frames to come; each frame taken
    from the transport costs at most one [timeout], and so does the wait
    that ends the call. *)
Lemma get_recv_buff_script_run (timeout : Z) (fuel : nat) :
  (0 <= timeout)%Z →
  ∀ (self : io_impl script_xport R) (index : nat),
    index < length (_buffs_queue self) →
    Forall (λ p, 0 <= p.1)%Z (sx_pending (data_transport self)) →
    length (sx_pending (data_transport self)) < fuel →
    let res := recv_s fuel index timeout self in
    (∃ obuff, res.1 = Returned obuff)
    ∧ length (sx_pending (data_transport res.2))
      ≤ length (sx_pending (data_transport self))
    ∧ (0 <= time_spent self res.2
       <= (Z.of_nat (length (sx_pending (data_transport self))
                     - length (sx_pending (data_transport res.2))) + 1) * timeout)%Z.
Proof.
  intros Ht. induction fuel as [|fuel IH]; intros self index Hidx Hdelays Hfuel; [lia|].
  simpl. unfold time_spent.
  destruct (lookup_lt_is_Some_2 _ _ Hidx) as [q Hq]. rewrite Hq.
  destruct (pop_with_haste q) as [[buff q']|] eqn:Hpop.
  { simpl. split_and!; [by eexists | lia | lia | nia]. }
  unfold script_get_recv_buff.
  destruct (data_transport self) as [clock pending frames] eqn:Hxp. simpl in *.
  destruct pending as [|[delay buff] rest]; simpl in *.
  { split_and!; [by eexists | lia | lia | nia]. }
  apply Forall_cons in Hdelays as [Hdelay Hrest]. simpl in Hdelay.
  destruct (Z.leb_spec delay timeout) as [Hle|Hgt]; simpl.
  2:{ rewrite Nat.sub_diag. split_and!; [by eexists | lia | lia | lia]. }
  case_bool_decide as Hsame; simpl.
  { split_and!; [by eexists | lia | lia | nia]. }
  case_bool_decide as Hin.
  - destruct (_buffs_queue self !! rx_index_of B100_RX_SID_BASE w buff) as [q_rx|] eqn:Hrx.
    2:{ apply lookup_ge_None in Hrx. lia. }
    match goal with |- context [recv_s fuel index timeout ?s] =>
      destruct (IH s index) as ([ob Hob] & Hlen & Hlo & Hhi) end;
      simpl; rewrite ?length_insert; try done; try lia.
    simpl in *. unfold time_spent in *. simpl in *.
    split_and!; [by eexists | lia | lia | nia].
  - match goal with |- context [recv_s fuel index timeout ?s] =>
      destruct (IH s index) as ([ob Hob] & Hlen & Hlo & Hhi) end;
      simpl; try done; try lia.
    simpl in *. unfold time_spent in *. simpl in *.
    split_and!; [by eexists | lia | lia | nia].
Qed.

End ScriptedRuns.

(** Frames for another channel arriving without end keep the loop going:
    no amount of fuel lets the call return. *)
Lemma get_recv_buff_flooded {R : Type} (B100_RX_SID_BASE w : Z) (timeout : Z)
    (index : nat) (fuel : nat) :
  ∀ (self : io_impl flood_xport R) (q : bounded_buffer managed_recv_buffer),
    _buffs_queue self !! index = Some q → bb_elems q = [] →
    rx_index_of B100_RX_SID_BASE w (fx_buff (data_transport self)) ≠ index →
    (get_recv_buff B100_RX_SID_BASE w fuel index timeout self).1 = OutOfFuel.
Proof.
  induction fuel as [|fuel IH]; intros self q Hq Hempty Hne; [done|].
  simpl. rewrite Hq, (pop_with_haste_empty _ Hempty).
  rewrite bool_decide_eq_false_2 by done.
  case_bool_decide as Hin.
  - destruct (_buffs_queue self
              !! rx_index_of B100_RX_SID_BASE w (fx_buff (data_transport self)))
      as [q_rx|] eqn:Hrx.
    2:{ apply lookup_ge_None in Hrx. lia. }
    apply (IH _ q); simpl; [|done..].
    by rewrite list_lookup_insert_ne.
  - by apply (IH _ q).
Qed.

(** The frames that arrive in time for other channels are taken from the
    transport one call each, and the loop goes on behind them with the
    requested queue still empty. *)
Lemma get_recv_buff_script_skip {R : Type} (B100_RX_SID_BASE w : Z)
    (index : nat) (timeout : Z) (q : bounded_buffer managed_recv_buffer)
    (rest skipped : list (Z * managed_recv_buffer)) :
  ∀ (fuel : nat) (self : io_impl script_xport R),
    _buffs_queue self !! index = Some q → bb_elems q = [] →
    sx_pending (data_transport self) = skipped ++ rest →
    Forall (λ p, (p.1 <= timeout)%Z ∧ rx_index_of B100_RX_SID_BASE w p.2 ≠ index) skipped →
    ∃ self1,
      get_recv_buff B100_RX_SID_BASE w (length skipped + fuel) index timeout self
      = get_recv_buff B100_RX_SID_BASE w fuel index timeout self1
      ∧ _buffs_queue self1 !! index = Some q
      ∧ sx_pending (data_transport self1) = rest
      ∧ sx_clock (data_transport self1)
        = (sx_clock (data_transport self) + total_delay skipped)%Z.
Proof.
  induction skipped as [|[delay buff] skipped IH]; intros fuel self Hq Hempty Hpend Hall.
  { exists self. simpl in *. split_and!; try done. lia. }
  apply Forall_cons in Hall as [[Hdelay Hne] Hall]. simpl in Hdelay, Hne.
  assert (xport_get_recv_buff timeout (data_transport self)
          = (Some buff, ScriptXport (sx_clock (data_transport self) + delay)
                          (skipped ++ rest) (sx_frames (data_transport self)))) as Hx.
  { simpl. unfold script_get_recv_buff.
    by rewrite Hpend; simpl; rewrite (proj2 (Z.leb_le _ _) Hdelay). }
  change (length ((delay, buff) :: skipped) + fuel) with (S (length skipped + fuel)).
  destruct (decide (rx_index_of B100_RX_SID_BASE w buff < length (_buffs_queue self)))
    as [Hin|Hout].
  - destruct (lookup_lt_is_Some_2 _ _ Hin) as [q_rx Hrx].
    rewrite (get_recv_buff_requeue _ _ _ _ _ _ q buff _ q_rx Hq Hempty Hx Hne Hrx).
    match goal with |- context [get_recv_buff _ _ _ index timeout ?s] =>
      destruct (IH fuel s) as (self1 & Hrun & Hq1 & Hp1 & Hc1) end; try done.
    { simpl. by rewrite list_lookup_insert_ne. }
    exists self1. simpl in *. split_and!; try done. lia.
  - rewrite (get_recv_buff_discard _ _ _ _ _ _ q buff _ Hq Hempty Hx) by lia.
    match goal with |- context [get_recv_buff _ _ _ index timeout ?s] =>
      destruct (IH fuel s) as (self1 & Hrun & Hq1 & Hp1 & Hc1) end; try done.
    exists self1. simpl in *. split_and!; try done. lia.
Qed.

(** C6, as the code has it.  Over a transport with finitely many frames
    to come, a call for a channel inside the vector returns within one more
    turn of the loop than there are frames, and it returns at the first of
    these events: if the requested queue holds a frame, that frame at once,
    the transport not called; otherwise, past the frames that arrive in
    time for other channels, the first frame for the requested channel if
    it arrives within [timeout] of the call before it, and the null pointer
    if the next frame takes longer than [timeout] or none is left.  Every
    transport call is given the whole [timeout] again: the time spent is
    the arrival times of the frames passed over, plus that of the frame
    returned or one [timeout]; so a call that takes [k] frames from the
    transport spends at most [(k + 1) * timeout] in it. *)
Theorem get_recv_buff_returns_within_script {R : Type} (B100_RX_SID_BASE w : Z)
    (self : io_impl script_xport R) (index : nat) (timeout : Z)
    (q : bounded_buffer managed_recv_buffer)
    (skipped rest : list (Z * managed_recv_buffer))
    (Hindex : index < length (_buffs_queue self))
    (Htimeout : (0 <= timeout)%Z)
    (Hdelays : Forall (λ p, 0 <= p.1)%Z (sx_pending (data_transport self)))
    (Hq : _buffs_queue self !! index = Some q)
    (Hsplit : sx_pending (data_transport self) = skipped ++ rest)
    (Hskipped : Forall (λ p, (p.1 <= timeout)%Z
                             ∧ rx_index_of B100_RX_SID_BASE w p.2 ≠ index) skipped)
    (Hrest : match rest with
             | [] => True
             | (delay, buff) :: _ =>
               (timeout < delay)%Z ∨ rx_index_of B100_RX_SID_BASE w buff = index
             end) :
  let frames := length (sx_pending (data_transport self)) in
  let res := get_recv_buff B100_RX_SID_BASE w (S frames) index timeout self in
  let taken := frames - length (sx_pending (data_transport res.2)) in
  (∃ obuff, res.1 = Returned obuff)
  ∧ (0 <= time_spent self res.2 <= (Z.of_nat taken + 1) * timeout)%Z
  ∧ match bb_elems q with
    | queued :: _ =>
      res.1 = Returned (Some queued) ∧ data_transport res.2 = data_transport self
    | [] =>
      match rest with
      | [] =>
        res.1 = Returned None
        ∧ time_spent self res.2 = (total_delay skipped + timeout)%Z
        ∧ sx_pending (data_transport res.2) = []
      | (delay, buff) :: rest' =>
        if (delay <=? timeout)%Z then
          res.1 = Returned (Some buff)
          ∧ time_spent self res.2 = (total_delay skipped + delay)%Z
          ∧ sx_pending (data_transport res.2) = rest'
        else
          res.1 = Returned None
          ∧ time_spent self res.2 = (total_delay skipped + timeout)%Z
          ∧ sx_pending (data_transport res.2) = ((delay - timeout)%Z, buff) :: rest'
      end
    end.
Proof.
  intros frames res taken.
  destruct (get_recv_buff_script_run B100_RX_SID_BASE w timeout (S frames)
              Htimeout self index Hindex Hdelays) as (Hret & _ & Htime);
    [unfold frames; lia |].
  split; [done|]. split; [done|].
  destruct (bb_elems q) as [|queued waiting] eqn:Hels.
  2:{ unfold res. simpl. rewrite Hq. unfold pop_with_haste. by rewrite Hels. }
  assert (S frames = length skipped + S (length rest)) as Hfuel
      by (unfold frames; rewrite Hsplit, length_app; lia).
  destruct (get_recv_buff_script_skip B100_RX_SID_BASE w index timeout q rest skipped
              (S (length rest)) self Hq Hels Hsplit Hskipped)
    as (self1 & Hrun & Hq1 & Hp1 & Hc1).
  unfold res, time_spent. rewrite Hfuel, Hrun.
  generalize (length rest). intros fuel. simpl.
  rewrite Hq1, (pop_with_haste_empty _ Hels). unfold script_get_recv_buff. rewrite Hp1.
  destruct rest as [|[delay buff] rest']; simpl.
  { split_and!; [done | lia | done]. }
  destruct (Z.leb_spec delay timeout) as [Hle|Hgt]; simpl.
  - destruct Hrest as [|Hmatch]; [lia|].
    rewrite bool_decide_eq_true_2 by done. simpl. split_and!; [done | lia | done].
  - split_and!; [done | lia | done].
Qed.

Lemma get_recv_buff_returns_within_script_witness :
  let self := two_channels [(6, data_frame 3 111); (6, data_frame 2 222);
                            (6, data_frame 2 333)]%Z in
  let res := get_recv_buff 2 32 4 0 10%Z self in
  (∃ obuff, res.1 = Returned obuff)
  ∧ (0 <= time_spent self res.2
     <= (Z.of_nat (3 - length (sx_pending (data_transport res.2))) + 1) * 10)%Z
  ∧ res.1 = Returned (Some (data_frame 2 222))
  ∧ time_spent self res.2 = (total_delay [(6, data_frame 3 111)] + 6)%Z
  ∧ sx_pending (data_transport res.2) = [(6, data_frame 2 333)]%Z.
Proof.
  apply (get_recv_buff_returns_within_script 2 32
    (two_channels [(6, data_frame 3 111); (6, data_frame 2 222);
                   (6, data_frame 2 333)]%Z) 0 10%Z (bb_new 16)
    [(6, data_frame 3 111)]%Z [(6, data_frame 2 222); (6, data_frame 2 333)]%Z).
  - vm_compute. lia.
  - lia.
  - repeat constructor; simpl; lia.
  - reflexivity.
  - reflexivity.
  - repeat constructor; [simpl; lia | vm_compute; lia].
  - right. reflexivity.
Defined.

(** C6, as the specification words it, fails: with two frames for channel 1
    arriving 6 ticks apart, a request for channel 0 with a timeout of 10
    ticks returns the null pointer after 22 ticks; and while frames for
    channel 1 keep arriving the request never returns. *)
Lemma get_recv_buff_outlasts_timeout :
  let self := two_channels [(6, data_frame 3 111); (6, data_frame 3 222)]%Z in
  let res := get_recv_buff 2 32 3 0 10%Z self in
  res.1 = Returned None
  ∧ time_spent self res.2 = 22%Z
  ∧ ¬ (time_spent self res.2 <= 10)%Z
  ∧ ∀ fuel, (get_recv_buff 2 32 fuel 0 10%Z
               (two_channels_flooded (data_frame 3 111))).1 = OutOfFuel.
Proof.
  split_and!; [reflexivity | reflexivity | vm_compute; congruence |].
  intros fuel. by apply (get_recv_buff_flooded 2 32 10%Z 0 fuel _ (bb_new 16)).
Qed.

(** ** The asynchronous message handler *)

Section AsyncMessageFacts.
Context {X R : Type}.
Variable size_bits : Z.
Variable B100_TX_ASYNC_SID : Z.
Variable PACKET_TYPE_DATA : Z.
Variable EVENT_CODE_UNDERFLOW : Z.
Variable EVENT_CODE_UNDERFLOW_IN_PACKET : Z.
Variable EVENT_CODE_SEQ_ERROR : Z.
Variable EVENT_CODE_SEQ_ERROR_IN_BURST : Z.
Variable if_hdr_unpack_le : managed_recv_buffer → if_packet_info_t → unpack_result.
Variable get_context_code : managed_recv_buffer → if_packet_info_t → Z.

Abbreviation handle_tail :=
  (handle_async_message_tail (X:=X) (R:=R) size_bits B100_TX_ASYNC_SID PACKET_TYPE_DATA
     EVENT_CODE_UNDERFLOW EVENT_CODE_UNDERFLOW_IN_PACKET
     EVENT_CODE_SEQ_ERROR EVENT_CODE_SEQ_ERROR_IN_BURST get_context_code).
Abbreviation handle :=
  (handle_async_message (X:=X) (R:=R) size_bits B100_TX_ASYNC_SID PACKET_TYPE_DATA
     EVENT_CODE_UNDERFLOW EVENT_CODE_UNDERFLOW_IN_PACKET
     EVENT_CODE_SEQ_ERROR EVENT_CODE_SEQ_ERROR_IN_BURST
     if_hdr_unpack_le get_context_code).

Abbreviation record_of := (async_record (X:=X) (R:=R) size_bits get_context_code).

Lemma handle_tail_async rbuf info (self : b100_impl X R) :
  sid info = B100_TX_ASYNC_SID → packet_type info ≠ PACKET_TYPE_DATA →
  async_msg_fifo (_io_impl (handle_tail rbuf info self))
  = push_with_pop_on_full (record_of rbuf info self) (async_msg_fifo (_io_impl self))
  ∧ ∃ more, msgs (_io_impl (handle_tail rbuf info self)) = msgs (_io_impl self) ++ more
            ∧ Forall (λ m, msg_kind m = msg_fastpath) more.
Proof.
  intros Hsid Htype. unfold handle_async_message_tail.
  rewrite bool_decide_eq_true_2, bool_decide_eq_false_2 by done. simpl.
  repeat case_match; simpl; (split; [done|]).
  - exists [UHD_MSG msg_fastpath [Str "U"]]. by repeat constructor.
  - exists [UHD_MSG msg_fastpath [Str "S"]]. by repeat constructor.
  - exists []. by rewrite app_nil_r.
Qed.

Lemma handle_tail_other rbuf info (self : b100_impl X R) :
  ¬ (sid info = B100_TX_ASYNC_SID ∧ packet_type info ≠ PACKET_TYPE_DATA) →
  async_msg_fifo (_io_impl (handle_tail rbuf info self)) = async_msg_fifo (_io_impl self)
  ∧ msgs (_io_impl (handle_tail rbuf info self))
    = msgs (_io_impl self) ++ [UHD_MSG msg_error [Str "Unknown async packet"]].
Proof.
  intros Hnot. unfold handle_async_message_tail.
  case_bool_decide as Hsid; simpl; [|done].
  case_bool_decide as Htype; simpl; [done|]. by destruct Hnot.
Qed.

(** C7.  When the header decodes, the handler completes; if the decoded
    stream id is the transmit-async one and the packet type is not data,
    it pushes one record onto the message fifo: channel 0, the context
    code as event code, the time marked valid exactly when both
    timestamp flags are set, and it prints nothing but fast-path marks;
    otherwise the fifo is as it was and the error message "Unknown async
    packet" is printed. *)
Theorem handle_async_message_pushes_iff
    (uninit info : if_packet_info_t) (rbuf : managed_recv_buffer)
    (self : b100_impl X R)
    (Hdecode : if_hdr_unpack_le rbuf
                 (set_num_packet_words32 (buff_size rbuf / 4)%Z uninit)
               = Unpacked info) :
  ∃ self', handle uninit rbuf self = Done self'
  ∧ (sid info = B100_TX_ASYNC_SID ∧ packet_type info ≠ PACKET_TYPE_DATA →
     ∃ md more,
       async_msg_fifo (_io_impl self')
       = push_with_pop_on_full md (async_msg_fifo (_io_impl self))
       ∧ channel md = 0
       ∧ event_code md = get_context_code rbuf info
       ∧ (has_time_spec md = true ↔ has_tsi info = true ∧ has_tsf info = true)
       ∧ time_spec md
         = TimeSpec (tsi info) (wrap size_bits (tsf info)) (fpga_clock_rate self)
       ∧ msgs (_io_impl self') = msgs (_io_impl self) ++ more
       ∧ Forall (λ m, msg_kind m = msg_fastpath) more)
  ∧ (¬ (sid info = B100_TX_ASYNC_SID ∧ packet_type info ≠ PACKET_TYPE_DATA) →
     async_msg_fifo (_io_impl self') = async_msg_fifo (_io_impl self)
     ∧ msgs (_io_impl self')
       = msgs (_io_impl self) ++ [UHD_MSG msg_error [Str "Unknown async packet"]]).
Proof.
  unfold handle_async_message. rewrite Hdecode. eexists. split; [done|]. split.
  - intros [Hsid Htype].
    destruct (handle_tail_async rbuf info self Hsid Htype) as (Hfifo & more & Hm & Hfast).
    exists (record_of rbuf info self), more. split_and!; try done.
    simpl. by rewrite andb_true_iff.
  - apply handle_tail_other.
Qed.

(** After a failed decode the handler prints the error and then goes on
    to the stream-id test with whatever the decoder left behind. *)
Lemma handle_async_message_after_throw uninit rbuf (self : b100_impl X R) what info :
  if_hdr_unpack_le rbuf (set_num_packet_words32 (buff_size rbuf / 4)%Z uninit)
  = UnpackThrew (StdException what) info →
  handle uninit rbuf self
  = Done (handle_tail rbuf info
            (with_io_impl
               (print_msg
                  (UHD_MSG msg_error [Str "Error (handle_async_message): "; Str what])
                  (_io_impl self))
               self)).
Proof. intros Hthrow. unfold handle_async_message. by rewrite Hthrow. Qed.

End AsyncMessageFacts.

Lemma handle_async_message_pushes_iff_witness :
  ∃ self', handle_async_message_model underflow_info underflow_frame sample_device
           = Done self'
  ∧ async_msg_fifo (_io_impl self')
    = BoundedBuffer 100 [AsyncMetadata 0 false (TimeSpec 0 0 ()) 2]
  ∧ msgs (_io_impl self') = [UHD_MSG msg_fastpath [Str "U"]].
Proof.
  destruct (handle_async_message_pushes_iff 64 1 0 2 16 4 32
              if_hdr_unpack_model get_context_code_model
              underflow_info underflow_info underflow_frame sample_device eq_refl)
    as (self' & Hrun & _).
  exists self'. split; [exact Hrun|].
  injection Hrun as <-. split; reflexivity.
Defined.

(** C2 at work: the handler is given a one-word frame whose decoding
    fails while its local header record still holds the fields of an
    underflow report.  The failure is printed, and yet an event record is
    pushed onto the fifo. *)
Theorem handle_async_message_runt_frame_pushes :
  if_hdr_unpack_model runt_frame
    (set_num_packet_words32 (buff_size runt_frame / 4)%Z underflow_info)
  = UnpackThrew (StdException "bad vrt header or packet fragment")
      (set_num_packet_words32 1 underflow_info)
  ∧ ∃ self', handle_async_message_model underflow_info runt_frame sample_device
             = Done self'
    ∧ msgs (_io_impl self')
      = [UHD_MSG msg_error [Str "Error (handle_async_message): ";
                            Str "bad vrt header or packet fragment"]]
    ∧ bb_elems (async_msg_fifo (_io_impl self'))
      = [AsyncMetadata 0 false (TimeSpec 0 0 ()) 0].
Proof.
  split; [reflexivity|].
  eexists. split; [reflexivity|]. split; reflexivity.
Qed.

(** ** Sub-device reconfiguration *)

Section SubdevSpecFacts.
Context {X R : Type}.
Variable size_bits : Z.
Variable max_if_hdr_words32 : Z.
Variable sizeof_cid : Z.
Variable sizeof_tlr : Z.
Variable get_sample_size : otw_type_t → Z.
Variable validate_subdev_spec :
  gmap (list string) string → list subdev_spec_pair_t → string → option exception.

Abbreviation max_recv_samps :=
  (get_max_recv_samps_per_packet (X:=X) (R:=R) size_bits max_if_hdr_words32
     sizeof_cid sizeof_tlr get_sample_size).
Abbreviation rx_bind :=
  (rx_bind_loop (X:=X) (R:=R) size_bits max_if_hdr_words32
     sizeof_cid sizeof_tlr get_sample_size).
Abbreviation update_rx :=
  (update_rx_subdev_spec (X:=X) (R:=R) size_bits max_if_hdr_words32
     sizeof_cid sizeof_tlr get_sample_size validate_subdev_spec).
Abbreviation update_tx :=
  (update_tx_subdev_spec (X:=X) (R:=R) validate_subdev_spec).

Implicit Types (self : b100_impl X R) (spec entries : list subdev_spec_pair_t).

Lemma rx_mux_loop_done entries : ∀ i self,
  Forall (λ e, is_Some (_tree self !! rx_connection_path e)) entries →
  i + length entries ≤ length (_rx_dsps self) →
  ∃ self', rx_mux_loop entries i self = Done self'
    ∧ _tree self' = _tree self
    ∧ _rx_otw_type self' = _rx_otw_type self
    ∧ _io_impl self' = _io_impl self
    ∧ length (_rx_dsps self') = length (_rx_dsps self)
    ∧ (∀ m, m < i → _rx_dsps self' !! m = _rx_dsps self !! m)
    ∧ (∀ k e, entries !! k = Some e →
         ∃ conn, _tree self !! rx_connection_path e = Some conn
                 ∧ rx_mux <$> (_rx_dsps self' !! (i + k)) = Some (Some conn)).
Proof.
  induction entries as [|entry rest IH]; intros i self Hpaths Hlen; simpl in *.
  { exists self. split_and!; try done. }
  apply Forall_cons in Hpaths as [[conn Hconn] Hrest]. rewrite Hconn.
  destruct (lookup_lt_is_Some_2 (_rx_dsps self) i ltac:(lia)) as [dsp Hdsp].
  rewrite Hdsp.
  destruct (IH (S i)
              (with_rx_dsps (<[i := rx_set_mux conn dsp]> (_rx_dsps self)) self))
    as (self' & Hrun & Htree & Hotw & Hio & Hlen' & Hlow & Hset);
    [done | simpl; rewrite length_insert; lia |].
  simpl in *. rewrite length_insert in Hlen'.
  exists self'. split_and!; try done.
  - intros m Hm. rewrite Hlow by lia. by rewrite list_lookup_insert_ne by lia.
  - intros [|k] e Hk; simpl in Hk.
    + injection Hk as <-. exists conn. split; [done|].
      rewrite Nat.add_0_r, Hlow by lia.
      by rewrite list_lookup_insert_eq by lia.
    + replace (i + S k) with (S i + k) by lia. by apply Hset.
Qed.

Lemma rx_bind_loop_done n : ∀ i self nsamps,
  max_recv_samps self = Some nsamps →
  i + n ≤ length (_rx_dsps self) →
  ∃ self', rx_bind n i self = Done self'
    ∧ _tree self' = _tree self
    ∧ length (recv_handler (_io_impl self')) = length (recv_handler (_io_impl self))
    ∧ ∀ m, rx_mux <$> (_rx_dsps self' !! m) = rx_mux <$> (_rx_dsps self !! m).
Proof.
  induction n as [|n IH]; intros i self nsamps Hsamps Hlen; simpl.
  { by exists self. }
  destruct (lookup_lt_is_Some_2 (_rx_dsps self) i ltac:(lia)) as [dsp Hdsp].
  rewrite Hdsp, Hsamps.
  match goal with |- context [rx_bind n (S i) ?s] =>
    destruct (IH (S i) s nsamps) as (self' & Hrun & Htree & Hlen' & Hmux) end;
    [done | simpl; rewrite length_insert; lia |].
  exists self'. split_and!; try done.
  - rewrite Hlen'. simpl. unfold set_overflow_handler, set_xport_chan_get_buff.
    by rewrite !length_alter.
  - intros m. rewrite Hmux. simpl.
    destruct (decide (m = i)) as [->|Hne].
    + rewrite list_lookup_insert_eq by (by eapply lookup_lt_Some). by rewrite Hdsp.
    + by rewrite list_lookup_insert_ne.
Qed.

Lemma tx_bind_loop_tx_fe n : ∀ i self,
  _tx_fe (tx_bind_loop n i self) = _tx_fe self
  ∧ length (send_handler (_io_impl (tx_bind_loop n i self)))
    = length (send_handler (_io_impl self)).
Proof.
  induction n as [|n IH]; intros i self; simpl; [done|].
  destruct (IH (S i)
    (with_io_impl
       (with_send_handler
          (set_xport_chan_get_buff i BindGetSendBuff (send_handler (_io_impl self)))
          (_io_impl self))
       self)) as [-> ->].
  simpl. unfold set_xport_chan_get_buff. by rewrite length_alter.
Qed.

Lemma handler_resize_length n h : length (handler_resize n h) = n.
Proof.
  unfold handler_resize. rewrite length_app, length_take, length_replicate. lia.
Qed.

(** C3, as the code has it.  When the receive spec passes validation,
    every entry has a connection in the tree, there is a DSP for every
    entry and the sample size is not zero, [update_rx_subdev_spec]
    completes and has programmed the mux of DSP [i] with the connection of
    entry [i], for every entry.  When the transmit spec passes validation
    and its first entry has a connection in the tree,
    [update_tx_subdev_spec] completes and has programmed the transmit
    front-end mux with the connection of the first entry. *)
Theorem update_subdev_spec_programs_mux
    (self : b100_impl X R) (rx_spec tx_spec : list subdev_spec_pair_t)
    (tx_first : subdev_spec_pair_t) (tx_conn : string)
    (Hrx_valid : validate_subdev_spec (_tree self) rx_spec "rx" = None)
    (Hrx_paths : Forall (λ e, is_Some (_tree self !! rx_connection_path e)) rx_spec)
    (Hrx_dsps : length rx_spec ≤ length (_rx_dsps self))
    (Hrx_size : get_sample_size (_rx_otw_type self) ≠ 0%Z)
    (Htx_valid : validate_subdev_spec (_tree self) tx_spec "tx" = None)
    (Htx_first : tx_spec !! 0 = Some tx_first)
    (Htx_conn : _tree self !! tx_connection_path tx_first = Some tx_conn) :
  (∃ self', update_rx rx_spec self = Done self'
     ∧ length (recv_handler (_io_impl self')) = length rx_spec
     ∧ ∀ i e, rx_spec !! i = Some e →
         ∃ conn, _tree self !! rx_connection_path e = Some conn
                 ∧ rx_mux <$> (_rx_dsps self' !! i) = Some (Some conn))
  ∧ (∃ self', update_tx tx_spec self = Done self'
     ∧ tx_mux (_tx_fe self') = Some tx_conn).
Proof.
  split.
  - unfold update_rx_subdev_spec. rewrite Hrx_valid.
    destruct (rx_mux_loop_done rx_spec 0 self Hrx_paths ltac:(simpl; lia))
      as (self1 & Hrun & Htree & Hotw & Hio & Hlen & _ & Hset).
    rewrite Hrun. simpl. rewrite handler_resize_length.
    assert (∃ nsamps, max_recv_samps self1 = Some nsamps) as [nsamps Hsamps].
    { unfold get_max_recv_samps_per_packet. rewrite Hotw.
      rewrite bool_decide_eq_false_2 by done. by eexists. }
    match goal with |- context [rx_bind _ 0 ?s] =>
      destruct (rx_bind_loop_done (length rx_spec) 0 s nsamps)
        as (self' & Hrun' & _ & Hlen' & Hmux) end; [done | simpl; lia |].
    exists self'. split_and!; [done | | ].
    + rewrite Hlen'. simpl. apply handler_resize_length.
    + intros i e Hi. destruct (Hset i e Hi) as (conn & Hconn & Hm).
      exists conn. split; [done|]. rewrite Hmux. simpl. exact Hm.
  - unfold update_tx_subdev_spec. rewrite Htx_valid, Htx_first, Htx_conn.
    eexists. split; [done|]. by rewrite (proj1 (tx_bind_loop_tx_fe _ _ _)).
Qed.

(** C10.  [update_tx_subdev_spec] has no test of its own for an empty
    spec: with an empty spec that the validation lets through, the read
    of [spec[0]] is outside the vector, and it happens before anything is
    programmed or resized (the device is as it was); with a spec of at
    least one entry no access of the function leaves a vector. *)
Theorem update_tx_subdev_spec_reads_first_entry
    (self : b100_impl X R) (spec : list subdev_spec_pair_t)
    (Hvalid_empty : validate_subdev_spec (_tree self) [] "tx" = None)
    (Hnonempty : 1 ≤ length spec) :
  update_tx [] self = Undefined self
  ∧ ∀ s, update_tx spec self ≠ Undefined s.
Proof.
  split.
  - unfold update_tx_subdev_spec. by rewrite Hvalid_empty.
  - intros s. unfold update_tx_subdev_spec.
    destruct spec as [|spec_0 rest]; simpl in *; [lia|].
    destruct (validate_subdev_spec (_tree self) (spec_0 :: rest) "tx"); [done|].
    by destruct (_tree self !! tx_connection_path spec_0).
Qed.

End SubdevSpecFacts.

Lemma update_subdev_spec_programs_mux_witness :
  (∃ self', update_rx_subdev_spec 64 7 8 4 get_sample_size_model validate_subdev_spec_model
              [SubdevSpecPair "A" "0"; SubdevSpecPair "A" "1"] sample_device = Done self'
     ∧ length (recv_handler (_io_impl self')) = 2
     ∧ ∀ i e, [SubdevSpecPair "A" "0"; SubdevSpecPair "A" "1"] !! i = Some e →
         ∃ conn, _tree sample_device !! rx_connection_path e = Some conn
                 ∧ rx_mux <$> (_rx_dsps self' !! i) = Some (Some conn))
  ∧ (∃ self', update_tx_subdev_spec validate_subdev_spec_model
                [SubdevSpecPair "A" "0"] sample_device = Done self'
     ∧ tx_mux (_tx_fe self') = Some "IQ").
Proof.
  apply (update_subdev_spec_programs_mux 64 7 8 4 get_sample_size_model
           validate_subdev_spec_model sample_device
           [SubdevSpecPair "A" "0"; SubdevSpecPair "A" "1"]
           [SubdevSpecPair "A" "0"] (SubdevSpecPair "A" "0") "IQ").
  - reflexivity.
  - repeat constructor; by eexists.
  - simpl. lia.
  - vm_compute. discriminate.
  - reflexivity.
  - reflexivity.
  - reflexivity.
Defined.

(** C3, as the specification words it, fails for the transmit direction:
    with the two-entry spec A:0 (connection IQ), A:1 (connection QI) the
    update completes with the transmit mux programmed for IQ and nothing
    programmed for QI; and with a validation that lets everything through,
    it completes even when the second entry has no connection in the tree
    to resolve. *)
Lemma update_tx_subdev_spec_ignores_later_entries :
  let spec := [SubdevSpecPair "A" "0"; SubdevSpecPair "A" "1"] in
  (∃ self', update_tx_subdev_spec validate_subdev_spec_model spec sample_device = Done self'
     ∧ tx_mux (_tx_fe self') = Some "IQ"
     ∧ ¬ (∀ i e, spec !! i = Some e →
            ∃ conn, _tree sample_device !! tx_connection_path e = Some conn
                    ∧ tx_mux (_tx_fe self') = Some conn))
  ∧ (∃ self', update_tx_subdev_spec (λ _ _ _, None)
                [SubdevSpecPair "A" "0"; SubdevSpecPair "B" "0"] sample_device = Done self'
     ∧ _tree sample_device !! tx_connection_path (SubdevSpecPair "B" "0") = None
     ∧ tx_mux (_tx_fe self') = Some "IQ").
Proof.
  split.
  - eexists. split; [reflexivity|]. split; [reflexivity|].
    intros Hall. destruct (Hall 1 (SubdevSpecPair "A" "1") eq_refl) as (conn & Hconn & Hmux).
    vm_compute in Hconn, Hmux. congruence.
  - eexists. split; [reflexivity|]. split; reflexivity.
Qed.

Lemma update_tx_subdev_spec_reads_first_entry_witness :
  update_tx_subdev_spec validate_subdev_spec_model [] sample_device = Undefined sample_device
  ∧ ∀ s, update_tx_subdev_spec validate_subdev_spec_model
           [SubdevSpecPair "A" "0"] sample_device ≠ Undefined s.
Proof.
  apply (update_tx_subdev_spec_reads_first_entry validate_subdev_spec_model
           sample_device [SubdevSpecPair "A" "0"]).
  - reflexivity.
  - simpl. lia.
Defined.

(** ** Packet sizing *)

Section SizingFacts.
Context {X R : Type}.
Variable size_bits : Z.
Variable max_if_hdr_words32 : Z.
Variable sizeof_cid : Z.
Variable sizeof_tlr : Z.
Variable get_sample_size : otw_type_t → Z.

Abbreviation max_send :=
  (get_max_send_samps_per_packet (X:=X) (R:=R) size_bits max_if_hdr_words32
     sizeof_cid get_sample_size).
Abbreviation max_recv :=
  (get_max_recv_samps_per_packet (X:=X) (R:=R) size_bits max_if_hdr_words32
     sizeof_cid sizeof_tlr get_sample_size).

(** C8.  With a class id no larger than the largest header, a header
    overhead of at most 2048 bytes and nothing overflowing [size_t], the
    send bound is (2048 - (4 * max_if_hdr_words32 - sizeof cid)) divided
    by the send sample size, the receive bound is the same with the
    trailer added to the overhead and the receive sample size, and for
    equal sample sizes the receive bound is not above the send bound. *)
Theorem max_samps_per_packet_formula (self : b100_impl X R)
    (Hbits : (2048 < 2 ^ size_bits)%Z)
    (Hcid : (0 <= sizeof_cid <= 4 * max_if_hdr_words32)%Z)
    (Htlr : (0 <= sizeof_tlr)%Z)
    (Hhdr : (4 * max_if_hdr_words32 + sizeof_tlr < 2 ^ size_bits)%Z)
    (Hfit : (4 * max_if_hdr_words32 - sizeof_cid + sizeof_tlr <= 2048)%Z)
    (Htx : (0 < get_sample_size (_tx_otw_type self))%Z)
    (Hrx : (0 < get_sample_size (_rx_otw_type self))%Z) :
  let send_overhead := (4 * max_if_hdr_words32 - sizeof_cid)%Z in
  let recv_overhead := (4 * max_if_hdr_words32 - sizeof_cid + sizeof_tlr)%Z in
  max_send self = Some ((2048 - send_overhead) / get_sample_size (_tx_otw_type self))%Z
  ∧ max_recv self = Some ((2048 - recv_overhead) / get_sample_size (_rx_otw_type self))%Z
  ∧ (get_sample_size (_rx_otw_type self) = get_sample_size (_tx_otw_type self) →
     ∀ n_recv n_send, max_recv self = Some n_recv → max_send self = Some n_send →
                      (0 <= n_recv <= n_send)%Z).
Proof.
  intros send_overhead recv_overhead.
  assert (max_send self
          = Some ((2048 - send_overhead) / get_sample_size (_tx_otw_type self))%Z) as Hs.
  { unfold get_max_send_samps_per_packet.
    rewrite bool_decide_eq_false_2 by lia. do 2 f_equal.
    rewrite (wrap_small _ (max_if_hdr_words32 * 4)), Z.add_0_l by lia.
    rewrite (wrap_small _ (max_if_hdr_words32 * 4)) by lia.
    rewrite (wrap_small _ (max_if_hdr_words32 * 4 - sizeof_cid)) by lia.
    rewrite wrap_small by lia. unfold send_overhead. lia. }
  assert (max_recv self
          = Some ((2048 - recv_overhead) / get_sample_size (_rx_otw_type self))%Z) as Hr.
  { unfold get_max_recv_samps_per_packet.
    rewrite bool_decide_eq_false_2 by lia. do 2 f_equal.
    rewrite (wrap_small _ (max_if_hdr_words32 * 4)), Z.add_0_l by lia.
    rewrite (wrap_small _ (max_if_hdr_words32 * 4)) by lia.
    rewrite (wrap_small _ (max_if_hdr_words32 * 4 + sizeof_tlr)) by lia.
    rewrite (wrap_small _ (max_if_hdr_words32 * 4 + sizeof_tlr - sizeof_cid)) by lia.
    rewrite wrap_small by lia. unfold recv_overhead. lia. }
  split_and!; [done | done |].
  intros Heq n_recv n_send. rewrite Hs, Hr, Heq. intros [= <-] [= <-].
  split.
  - apply Z.div_pos; unfold recv_overhead; lia.
  - apply Z.div_le_mono; unfold send_overhead, recv_overhead; lia.
Qed.

End SizingFacts.

Lemma max_samps_per_packet_formula_witness :
  get_max_send_samps_per_packet 64 7 8 get_sample_size_model sample_device = Some 507%Z
  ∧ get_max_recv_samps_per_packet 64 7 8 4 get_sample_size_model sample_device = Some 506%Z.
Proof.
  refine (let H := max_samps_per_packet_formula 64 7 8 4 get_sample_size_model
                     sample_device _ _ _ _ _ _ _ in
          conj (proj1 H) (proj1 (proj2 H)));
    first [lia | vm_compute; reflexivity].
Defined.


(** * Further properties of the code *)

(** ** The receive demultiplexer, over any transport *)

Section GetRecvBuffMore.
Context {T X R : Type} `{!zero_copy_if T X}.
Variable B100_RX_SID_BASE : Z.
Variable w : Z.

Abbreviation rx_index' := (rx_index_of B100_RX_SID_BASE w).
Abbreviation recv' := (get_recv_buff (R:=R) B100_RX_SID_BASE w).
Abbreviation calls' := (recv_calls (R:=R) B100_RX_SID_BASE w).

Implicit Types (self : io_impl X R) (buff : managed_recv_buffer)
         (q : bounded_buffer managed_recv_buffer)
         (qs : list (bounded_buffer managed_recv_buffer)).

(** X1.  The requested index is not checked: a call ends in the access
    outside the vector of queues exactly when the requested index is not
    below the number of queues, and then at once, with the transport not
    called and nothing changed. *)
Theorem get_recv_buff_out_of_range_iff
    (fuel index : nat) (timeout : T) (self : io_impl X R) :
  ((recv' (S fuel) index timeout self).1 = OutOfRange
   ↔ length (_buffs_queue self) ≤ index)
  ∧ (length (_buffs_queue self) ≤ index →
     recv' (S fuel) index timeout self = (OutOfRange, self)).
Proof.
  assert (length (_buffs_queue self) ≤ index →
          recv' (S fuel) index timeout self = (OutOfRange, self)) as Hout.
  { intros Hge. simpl. by rewrite (proj2 (lookup_ge_None _ _) Hge). }
  split; [|done]. split.
  - intros Hr. destruct (decide (length (_buffs_queue self) ≤ index)) as [|Hlt]; [done|].
    destruct (recv' (S fuel) index timeout self) as [r s'] eqn:Hrun.
    apply get_recv_buff_sound in Hrun as (_ & _ & _ & Hin & _).
    simpl in Hr. destruct Hin; [lia | done].
  - intros Hge. by rewrite Hout.
Qed.

Lemma pop_with_haste_wf q buff q' :
  pop_with_haste q = Some (buff, q') →
  bb_capacity q' = bb_capacity q ∧ (bb_wf q → bb_wf q').
Proof.
  unfold pop_with_haste, bb_wf. destruct (bb_elems q) as [|b rest] eqn:He; [done|].
  intros [= <- <-]. simpl. split; [done|]. lia.
Qed.

Lemma capacities_insert qs i q q' :
  qs !! i = Some q → bb_capacity q' = bb_capacity q →
  bb_capacity <$> <[i := q']> qs = bb_capacity <$> qs.
Proof.
  intros Hq Hcap. rewrite list_fmap_insert, Hcap.
  apply list_insert_id. by rewrite list_lookup_fmap, Hq.
Qed.

(** X2.  Whatever a call does, it leaves the message fifo and both packet
    handlers alone, it neither adds nor removes a queue, every queue keeps
    its capacity, and queues that held no more frames than their (positive)
    capacity still do. *)
Theorem get_recv_buff_keeps_queues_bounded
    (fuel index : nat) (timeout : T) (self : io_impl X R)
    (Hwf : Forall bb_wf (_buffs_queue self)) :
  let self' := (recv' fuel index timeout self).2 in
  Forall bb_wf (_buffs_queue self')
  ∧ bb_capacity <$> _buffs_queue self' = bb_capacity <$> _buffs_queue self
  ∧ async_msg_fifo self' = async_msg_fifo self
  ∧ recv_handler self' = recv_handler self
  ∧ send_handler self' = send_handler self.
Proof.
  revert self Hwf. induction fuel as [|fuel IH]; intros self Hwf; simpl; [done|].
  destruct (_buffs_queue self !! index) as [q|] eqn:Hq; [|done].
  destruct (pop_with_haste q) as [[buff q']|] eqn:Hpop.
  { simpl. destruct (pop_with_haste_wf _ _ _ Hpop) as [Hcap Hq'].
    split_and!; try done.
    - apply Forall_insert; [done|]. apply Hq'. by eapply Forall_lookup_1.
    - by eapply capacities_insert. }
  destruct (xport_get_recv_buff timeout (data_transport self)) as [[buff|] xport']; [|done].
  case_bool_decide; [done|].
  case_bool_decide; [|by apply (IH (print_msg _ (with_transport xport' self)))].
  destruct (_buffs_queue self !! rx_index' buff) as [q_rx|] eqn:Hrx; [|done].
  match goal with |- context [recv' fuel index timeout ?s] =>
    destruct (IH s) as (Hwf' & Hcap' & Hfifo & Hrh & Hsh) end.
  { simpl. apply Forall_insert; [done|]. apply push_wf. by eapply Forall_lookup_1. }
  simpl in *. split_and!; try done.
  rewrite Hcap'. eapply capacities_insert; [done|]. apply push_capacity.
Qed.

Lemma recv_calls_sound calls : ∀ self rs self',
  calls' calls self = (rs, self') →
  routed B100_RX_SID_BASE w self →
  routed B100_RX_SID_BASE w self'
  ∧ length rs = length calls
  ∧ ∀ k call buff, calls !! k = Some call → rs !! k = Some (Returned (Some buff)) →
      rx_index' buff = call.1.2.
Proof.
  induction calls as [|[[fuel index] timeout] calls IH]; intros self rs self' Hrun Hr;
    simpl in Hrun.
  { injection Hrun as <- <-. split_and!; done. }
  destruct (recv' fuel index timeout self) as [r self1] eqn:Hcall.
  destruct (calls' calls self1) as [rs1 self2] eqn:Hrest.
  injection Hrun as <- <-.
  apply get_recv_buff_sound in Hcall as (_ & _ & _ & _ & Hsound).
  destruct (Hsound Hr) as [Hr1 Hbuff].
  destruct (IH _ _ _ Hrest Hr1) as (Hr2 & Hlen & Hall).
  split_and!; [done | simpl; lia |].
  intros [|k] call buff Hk Hres; simpl in *.
  - injection Hk as <-. injection Hres as ->. by apply Hbuff.
  - by eapply Hall.
Qed.

Lemma routed_from_replicate_new k n c :
  queues_routed_from B100_RX_SID_BASE w k (replicate n (bb_new c)) = true.
Proof. revert k. induction n as [|n IH]; intros k; simpl; [done|]. by rewrite IH. Qed.

(** X4.  From construction on, a caller never gets another channel's
    frame: whatever calls are made on a freshly constructed [io_impl], in
    whatever order and whatever the transport delivers, every buffer a call
    returns carries the stream id of the channel that call asked for. *)
Theorem recv_calls_return_own_channel
    (xport : X) (recv_width : nat) (calls : list (nat * nat * T))
    (k : nat) (call : nat * nat * T) (buff : managed_recv_buffer)
    (Hcall : calls !! k = Some call)
    (Hres : (calls' calls (io_impl_new (T:=T) xport recv_width)).1 !! k
            = Some (Returned (Some buff))) :
  rx_index' buff = call.1.2.
Proof.
  destruct (calls' calls (io_impl_new (T:=T) xport recv_width)) as [rs s'] eqn:Hrun.
  apply recv_calls_sound in Hrun as (_ & _ & Hall).
  - by eapply Hall.
  - unfold routed. simpl. apply routed_from_replicate_new.
Qed.

End GetRecvBuffMore.

(** ** The receive demultiplexer, over the scripted transport *)

Section ScriptedMore.
Context {R : Type}.
Variable B100_RX_SID_BASE : Z.
Variable w : Z.

Abbreviation rx_index_s := (rx_index_of B100_RX_SID_BASE w).
Abbreviation recv_s' :=
  (get_recv_buff (T:=Z) (X:=script_xport) (R:=R) B100_RX_SID_BASE w).
Abbreviation calls_s :=
  (recv_calls (T:=Z) (X:=script_xport) (R:=R) B100_RX_SID_BASE w).

Implicit Types (self : io_impl script_xport R) (buff : managed_recv_buffer)
         (q : bounded_buffer managed_recv_buffer).

(** A request for channel [i] whose queue is empty, while only frames for
    another channel [j] arrive in time: every frame goes to the back of
    [j]'s queue, and the request ends in the timeout. *)
Lemma get_recv_buff_requeue_all (i j : nat) (timeout : Z) q_i
    (pending : list (Z * managed_recv_buffer)) : ∀ self q_j,
  i ≠ j →
  _buffs_queue self !! i = Some q_i → bb_elems q_i = [] →
  _buffs_queue self !! j = Some q_j →
  sx_pending (data_transport self) = pending →
  Forall (λ p, (p.1 <= timeout)%Z ∧ rx_index_s p.2 = j) pending →
  let res := recv_s' (S (length pending)) i timeout self in
  res.1 = Returned None
  ∧ _buffs_queue res.2 = <[j := push_all pending.*2 q_j]> (_buffs_queue self)
  ∧ sx_pending (data_transport res.2) = []
  ∧ msgs res.2 = msgs self.
Proof.
  induction pending as [|[delay buff] rest IH];
    intros self q_j Hij Hqi Hei Hqj Hpend Hall; cbv zeta.
  - simpl. rewrite Hqi, (pop_with_haste_empty _ Hei). unfold script_get_recv_buff.
    rewrite Hpend. simpl. split_and!; try done. by rewrite list_insert_id.
  - apply Forall_cons in Hall as [[Hdelay Hrx] Hrest]. simpl in Hdelay, Hrx.
    assert (xport_get_recv_buff timeout (data_transport self)
            = (Some buff, ScriptXport (sx_clock (data_transport self) + delay) rest
                            (sx_frames (data_transport self)))) as Hx.
    { simpl. unfold script_get_recv_buff.
      by rewrite Hpend, (proj2 (Z.leb_le _ _) Hdelay). }
    change (length ((delay, buff) :: rest)) with (S (length rest)).
    rewrite (get_recv_buff_requeue B100_RX_SID_BASE w (S (length rest)) i timeout
               self q_i buff _ q_j Hqi Hei Hx) by (by rewrite Hrx).
    rewrite Hrx.
    match goal with |- context [recv_s' _ i timeout ?s] =>
      destruct (IH s (push_with_pop_on_full buff q_j))
        as (Hres & Hqs & Hpending & Hmsgs) end; try done.
    + simpl. by rewrite list_lookup_insert_ne.
    + simpl. rewrite list_lookup_insert_eq; [done | by eapply lookup_lt_Some].
    + split_and!; try done.
      rewrite Hqs. simpl. by rewrite list_insert_insert_eq.
Qed.

(** Requests for a channel whose queue holds frames take them from the
    front, oldest first, and leave the transport alone. *)
Lemma recv_calls_drain (j fuel : nat) (timeout : Z) (n : nat) : ∀ self q,
  _buffs_queue self !! j = Some q →
  n ≤ length (bb_elems q) →
  let res := calls_s (replicate n (S fuel, j, timeout)) self in
  res.1 = (λ buff, Returned (Some buff)) <$> take n (bb_elems q)
  ∧ _buffs_queue res.2
    = <[j := BoundedBuffer (bb_capacity q) (drop n (bb_elems q))]> (_buffs_queue self)
  ∧ data_transport res.2 = data_transport self
  ∧ msgs res.2 = msgs self.
Proof.
  induction n as [|n IH]; intros self [cap els] Hq Hn; simpl in *.
  { split_and!; try done. by rewrite list_insert_id. }
  destruct els as [|buff rest]; simpl in *; [lia|].
  rewrite Hq. unfold pop_with_haste. simpl.
  match goal with |- context [calls_s _ ?s] =>
    destruct (IH s (BoundedBuffer cap rest)) as (Hres & Hqs & Hx & Hm) end; simpl.
  { rewrite list_lookup_insert_eq; [done | by eapply lookup_lt_Some]. }
  { lia. }
  destruct (calls_s _ _) as [rs s']. simpl in *.
  split_and!; try done.
  - by rewrite Hres.
  - by rewrite Hqs, list_insert_insert_eq.
Qed.

(** X5.  Frames requeued for another channel keep their arrival order, up
    to the depth of the queue.  While a request for channel [i] (queue
    empty) is served, only frames for channel [j] arrive, all in time: the
    request ends in the timeout, and channel [j]'s queue then holds, behind
    what it held, those frames in arrival order, less the oldest ones that
    did not fit its capacity.  The following requests for [j] return
    exactly these, oldest first, without calling the transport. *)
Theorem requeued_frames_keep_arrival_order
    (self : io_impl script_xport R) (i j fuel : nat) (timeout : Z)
    (q_i q_j : bounded_buffer managed_recv_buffer)
    (Hij : i ≠ j)
    (Hqi : _buffs_queue self !! i = Some q_i) (Hei : bb_elems q_i = [])
    (Hqj : _buffs_queue self !! j = Some q_j) (Hwf : bb_wf q_j)
    (Hframes : Forall (λ p, (p.1 <= timeout)%Z ∧ rx_index_s p.2 = j)
                 (sx_pending (data_transport self))) :
  let frames := (sx_pending (data_transport self)).*2 in
  let kept := drop (length (bb_elems q_j ++ frames) - bb_capacity q_j)
                (bb_elems q_j ++ frames) in
  let first := recv_s' (S (length (sx_pending (data_transport self)))) i timeout self in
  let later := calls_s (replicate (length kept) (S fuel, j, timeout)) first.2 in
  first.1 = Returned None
  ∧ sx_pending (data_transport first.2) = []
  ∧ later.1 = (λ buff, Returned (Some buff)) <$> kept
  ∧ data_transport later.2 = data_transport first.2
  ∧ msgs later.2 = msgs self.
Proof.
  intros frames kept first later.
  destruct (get_recv_buff_requeue_all i j timeout q_i _ self q_j Hij Hqi Hei Hqj eq_refl Hframes)
    as (Hres & Hqs & Hpending & Hmsgs).
  fold first in Hres, Hqs, Hpending, Hmsgs. fold frames in Hqs.
  destruct (push_all_elems frames q_j Hwf) as [_ Hkept]. fold kept in Hkept.
  destruct (recv_calls_drain j fuel timeout (length kept) first.2 (push_all frames q_j))
    as (Hlater & _ & Hx & Hm).
  { rewrite Hqs. rewrite list_lookup_insert_eq; [done | by eapply lookup_lt_Some]. }
  { by rewrite Hkept. }
  fold later in Hlater, Hx, Hm.
  split_and!; try done.
  - by rewrite Hlater, Hkept, firstn_all.
  - by rewrite Hm.
Qed.

(** X6.  What a call prints: over the frames it takes from the transport,
    in order, exactly one error message for every frame whose index is
    outside the vector of queues, and nothing else; the frames it does not
    take stay with the transport, in order. *)
Theorem get_recv_buff_reports_each_discard
    (fuel index : nat) (timeout : Z) (self : io_impl script_xport R) :
  let res := recv_s' fuel index timeout self in
  ∃ taken,
    (sx_pending (data_transport self)).*2
    = taken ++ (sx_pending (data_transport res.2)).*2
    ∧ msgs res.2
      = msgs self
        ++ (unknown_sid_msg
              <$> filter (λ buff, length (_buffs_queue self) ≤ rx_index_s buff) taken).
Proof.
  revert self. induction fuel as [|fuel IH]; intros self; simpl.
  { exists []. split; [done|]. simpl. by rewrite app_nil_r. }
  destruct (_buffs_queue self !! index) as [q|] eqn:Hq.
  2:{ exists []. split; [done|]. simpl. by rewrite app_nil_r. }
  destruct (pop_with_haste q) as [[buff q']|].
  { exists []. split; [done|]. simpl. by rewrite app_nil_r. }
  unfold script_get_recv_buff.
  destruct (sx_pending (data_transport self)) as [|[delay buff] rest] eqn:Hpend; simpl.
  { exists []. split; [done|]. simpl. by rewrite app_nil_r. }
  destruct (delay <=? timeout)%Z; simpl.
  2:{ exists []. split; [done|]. simpl. by rewrite app_nil_r. }
  pose proof (lookup_lt_Some _ _ _ Hq) as Hidx.
  case_bool_decide as Hsame; simpl.
  { exists [buff]. split; [done|].
    rewrite filter_cons_False by lia. by rewrite app_nil_r. }
  case_bool_decide as Hin.
  - destruct (_buffs_queue self !! rx_index_s buff) as [q_rx|]; simpl.
    2:{ exists [buff]. split; [done|].
        rewrite filter_cons_False by lia. by rewrite app_nil_r. }
    match goal with |- context [recv_s' fuel index timeout ?s] =>
      destruct (IH s) as (taken & Htaken & Hmsgs) end.
    simpl in *. rewrite length_insert in Hmsgs.
    exists (buff :: taken). split; [simpl; by f_equal|].
    by rewrite filter_cons_False by lia.
  - match goal with |- context [recv_s' fuel index timeout ?s] =>
      destruct (IH s) as (taken & Htaken & Hmsgs) end.
    simpl in *.
    exists (buff :: taken). split; [simpl; by f_equal|].
    rewrite filter_cons_True by lia. rewrite Hmsgs, <- app_assoc. done.
Qed.

End ScriptedMore.

(** ** The asynchronous message handler and its consumer *)

Section AsyncMore.
Context {X R : Type}.
Variable size_bits : Z.
Variable B100_TX_ASYNC_SID : Z.
Variable PACKET_TYPE_DATA : Z.
Variable EVENT_CODE_UNDERFLOW : Z.
Variable EVENT_CODE_UNDERFLOW_IN_PACKET : Z.
Variable EVENT_CODE_SEQ_ERROR : Z.
Variable EVENT_CODE_SEQ_ERROR_IN_BURST : Z.
Variable if_hdr_unpack_le : managed_recv_buffer → if_packet_info_t → unpack_result.
Variable get_context_code : managed_recv_buffer → if_packet_info_t → Z.

Abbreviation handle_tail' :=
  (handle_async_message_tail (X:=X) (R:=R) size_bits B100_TX_ASYNC_SID PACKET_TYPE_DATA
     EVENT_CODE_UNDERFLOW EVENT_CODE_UNDERFLOW_IN_PACKET
     EVENT_CODE_SEQ_ERROR EVENT_CODE_SEQ_ERROR_IN_BURST get_context_code).
Abbreviation handle' :=
  (handle_async_message (X:=X) (R:=R) size_bits B100_TX_ASYNC_SID PACKET_TYPE_DATA
     EVENT_CODE_UNDERFLOW EVENT_CODE_UNDERFLOW_IN_PACKET
     EVENT_CODE_SEQ_ERROR EVENT_CODE_SEQ_ERROR_IN_BURST
     if_hdr_unpack_le get_context_code).
Abbreviation record_of' := (async_record (X:=X) (R:=R) size_bits get_context_code).

Lemma handle_tail_frame rbuf info (self : b100_impl X R) :
  same_but_fifo_and_log (handle_tail' rbuf info self) self
  ∧ bb_capacity (async_msg_fifo (_io_impl (handle_tail' rbuf info self)))
    = bb_capacity (async_msg_fifo (_io_impl self))
  ∧ (bb_wf (async_msg_fifo (_io_impl self)) →
     bb_wf (async_msg_fifo (_io_impl (handle_tail' rbuf info self))))
  ∧ ∃ more, msgs (_io_impl (handle_tail' rbuf info self)) = msgs (_io_impl self) ++ more.
Proof.
  unfold handle_async_message_tail, same_but_fifo_and_log.
  repeat case_match; simpl; rewrite ?push_capacity;
    (split_and!; try done; try apply push_wf;
     first [by eexists | by exists []; rewrite app_nil_r]).
Qed.

(** X7.  The handler only ever touches the message fifo and the message
    log: however the decoding goes, the property tree, the DSPs, the
    transmit front-end, the sample formats, the transport, the channel
    queues and both packet handlers are as before; the fifo keeps its
    capacity and never holds more records than that; printed messages are
    only added. *)
Theorem handle_async_message_only_fifo_and_log
    (uninit : if_packet_info_t) (rbuf : managed_recv_buffer) (self : b100_impl X R)
    (Hwf : bb_wf (async_msg_fifo (_io_impl self))) :
  let self' := outcome_state (handle' uninit rbuf self) in
  same_but_fifo_and_log self' self
  ∧ bb_capacity (async_msg_fifo (_io_impl self'))
    = bb_capacity (async_msg_fifo (_io_impl self))
  ∧ length (bb_elems (async_msg_fifo (_io_impl self')))
    ≤ bb_capacity (async_msg_fifo (_io_impl self))
  ∧ ∃ more, msgs (_io_impl self') = msgs (_io_impl self) ++ more.
Proof.
  unfold handle_async_message.
  destruct (if_hdr_unpack_le rbuf _) as [info|[what|] info]; simpl.
  - destruct (handle_tail_frame rbuf info self) as (Hsame & Hcap & Hwf' & Hmsgs).
    split_and!; try done. rewrite <- Hcap. by apply Hwf'.
  - match goal with |- context [handle_tail' rbuf info ?s] =>
      destruct (handle_tail_frame rbuf info s) as (Hsame & Hcap & Hwf' & [more Hmsgs]) end.
    simpl in *. split_and!; try done.
    + rewrite <- Hcap. by apply Hwf'.
    + eexists. by rewrite Hmsgs, <- app_assoc.
  - unfold same_but_fifo_and_log. split_and!; try done; [by apply Hwf|].
    exists []. by rewrite app_nil_r.
Qed.

(** X8.  No [std::exception] of the decoder leaves the handler: unless
    the decoder throws something that is not a [std::exception], the
    handler completes; and when the decoder throws a [std::exception], the
    first thing printed is the error message with its [what()]. *)
Theorem handle_async_message_contains_std_exception
    (uninit : if_packet_info_t) (rbuf : managed_recv_buffer) (self : b100_impl X R)
    (Hstd : ∀ info,
        if_hdr_unpack_le rbuf (set_num_packet_words32 (buff_size rbuf / 4)%Z uninit)
        ≠ UnpackThrew ForeignException info) :
  ∃ self', handle' uninit rbuf self = Done self'
  ∧ ∀ what info,
      if_hdr_unpack_le rbuf (set_num_packet_words32 (buff_size rbuf / 4)%Z uninit)
      = UnpackThrew (StdException what) info →
      ∃ more,
        msgs (_io_impl self')
        = msgs (_io_impl self)
          ++ UHD_MSG msg_error [Str "Error (handle_async_message): "; Str what] :: more.
Proof.
  unfold handle_async_message.
  destruct (if_hdr_unpack_le rbuf _) as [info|[what|] info] eqn:Hdec.
  - eexists. split; [done|]. by intros what info'.
  - eexists. split; [done|]. intros what' info' [= <- <-].
    match goal with |- context [handle_tail' rbuf info ?s] =>
      destruct (handle_tail_frame rbuf info s) as (_ & _ & _ & [more Hmsgs]) end.
    simpl in Hmsgs. exists more. by rewrite Hmsgs, <- app_assoc.
  - by destruct (Hstd info).
Qed.

(** X9.  A handled report reaches the consumer in arrival order.  After a
    report with the transmit-async stream id and a non-data type has been
    decoded and handled, the fifo holds what it held followed by the new
    record, less the oldest record if it was full; [recv_async_msg] then
    returns the oldest of these and leaves the others. *)
Theorem handled_report_is_received_in_order {T : Type}
    (uninit info : if_packet_info_t) (rbuf : managed_recv_buffer)
    (self : b100_impl X R) (timeout : T)
    (Hdecode : if_hdr_unpack_le rbuf
                 (set_num_packet_words32 (buff_size rbuf / 4)%Z uninit)
               = Unpacked info)
    (Hsid : sid info = B100_TX_ASYNC_SID)
    (Htype : packet_type info ≠ PACKET_TYPE_DATA)
    (Hwf : bb_wf (async_msg_fifo (_io_impl self))) :
  let fifo := async_msg_fifo (_io_impl self) in
  let arrived := bb_elems fifo ++ [record_of' rbuf info self] in
  let queued := drop (length arrived - bb_capacity fifo) arrived in
  ∃ self',
    handle' uninit rbuf self = Done self'
    ∧ bb_elems (async_msg_fifo (_io_impl self')) = queued
    ∧ (length (bb_elems fifo) < bb_capacity fifo → queued = arrived)
    ∧ (length (bb_elems fifo) = bb_capacity fifo → queued = tail arrived)
    ∧ is_Some (head queued)
    ∧ (recv_async_msg timeout self').1 = head queued
    ∧ bb_elems (async_msg_fifo (_io_impl (recv_async_msg timeout self').2)) = tail queued.
Proof.
  intros fifo arrived queued.
  unfold handle_async_message. rewrite Hdecode. eexists. split; [done|].
  destruct (handle_tail_async size_bits B100_TX_ASYNC_SID PACKET_TYPE_DATA
              EVENT_CODE_UNDERFLOW EVENT_CODE_UNDERFLOW_IN_PACKET
              EVENT_CODE_SEQ_ERROR EVENT_CODE_SEQ_ERROR_IN_BURST get_context_code
              rbuf info self Hsid Htype) as [Hfifo _].
  assert (bb_elems (async_msg_fifo (_io_impl (handle_tail' rbuf info self))) = queued)
    as Hq by (by rewrite Hfifo, push_elems).
  destruct Hwf as [Hpos Hlen].
  assert (length arrived = S (length (bb_elems fifo))) as Harr
      by (unfold arrived; rewrite length_app; simpl; lia).
  assert (is_Some (head queued)) as [md Hmd].
  { apply head_is_Some. intros Hnil. apply (f_equal length) in Hnil.
    unfold queued in Hnil. rewrite length_drop in Hnil. simpl in Hnil.
    fold fifo in Hlen, Hpos. lia. }
  split_and!; try done.
  - intros Hlt. unfold queued. replace (length arrived - bb_capacity fifo) with 0 by lia.
    done.
  - intros Heq. unfold queued. replace (length arrived - bb_capacity fifo) with 1 by lia.
    by destruct arrived.
  - unfold recv_async_msg, pop_with_timed_wait, pop_with_haste. rewrite Hq.
    by destruct queued.
  - unfold recv_async_msg, pop_with_timed_wait, pop_with_haste. rewrite Hq.
    by destruct queued.
Qed.

End AsyncMore.

(** ** Sub-device reconfiguration: failures, bindings, and what stays *)

Section SubdevSpecMore.
Context {X R : Type}.
Variable size_bits : Z.
Variable max_if_hdr_words32 : Z.
Variable sizeof_cid : Z.
Variable sizeof_tlr : Z.
Variable get_sample_size : otw_type_t → Z.
Variable validate_subdev_spec :
  gmap (list string) string → list subdev_spec_pair_t → string → option exception.

Abbreviation max_recv_samps' :=
  (get_max_recv_samps_per_packet (X:=X) (R:=R) size_bits max_if_hdr_words32
     sizeof_cid sizeof_tlr get_sample_size).
Abbreviation rx_bind' :=
  (rx_bind_loop (X:=X) (R:=R) size_bits max_if_hdr_words32
     sizeof_cid sizeof_tlr get_sample_size).
Abbreviation update_rx' :=
  (update_rx_subdev_spec (X:=X) (R:=R) size_bits max_if_hdr_words32
     sizeof_cid sizeof_tlr get_sample_size validate_subdev_spec).
Abbreviation update_tx' :=
  (update_tx_subdev_spec (X:=X) (R:=R) validate_subdev_spec).

Implicit Types (self : b100_impl X R) (spec entries pre rest : list subdev_spec_pair_t).

(** The mux loop over the entries it can serve: they are programmed, one
    DSP each, and the loop goes on behind them. *)
Lemma rx_mux_loop_prefix pre : ∀ i self rest,
  Forall (λ e, is_Some (_tree self !! rx_connection_path e)) pre →
  i + length pre ≤ length (_rx_dsps self) →
  ∃ self1,
    rx_mux_loop (pre ++ rest) i self = rx_mux_loop rest (i + length pre) self1
    ∧ _tree self1 = _tree self
    ∧ _io_impl self1 = _io_impl self
    ∧ length (_rx_dsps self1) = length (_rx_dsps self)
    ∧ (∀ m, m < i ∨ i + length pre ≤ m → _rx_dsps self1 !! m = _rx_dsps self !! m)
    ∧ (∀ k e, pre !! k = Some e →
         ∃ conn, _tree self !! rx_connection_path e = Some conn
                 ∧ _rx_dsps self1 !! (i + k)
                   = rx_set_mux conn <$> (_rx_dsps self !! (i + k)))
    ∧ _rx_otw_type self1 = _rx_otw_type self.
Proof.
  induction pre as [|entry pre IH]; intros i self rest Hpaths Hlen; simpl in *.
  { exists self. rewrite Nat.add_0_r. split_and!; try done. }
  apply Forall_cons in Hpaths as [[conn Hconn] Hpre]. rewrite Hconn.
  destruct (lookup_lt_is_Some_2 (_rx_dsps self) i ltac:(lia)) as [dsp Hdsp].
  rewrite Hdsp.
  destruct (IH (S i)
              (with_rx_dsps (<[i := rx_set_mux conn dsp]> (_rx_dsps self)) self) rest)
    as (self1 & Hrun & Htree & Hio & Hlen' & Hout & Hset & Hotw);
    [done | simpl; rewrite length_insert; lia |].
  simpl in *. rewrite length_insert in Hlen'.
  exists self1. replace (i + S (length pre)) with (S (i + length pre)) by lia.
  split_and!; try done.
  - intros m Hm. rewrite Hout by lia. by rewrite list_lookup_insert_ne by lia.
  - intros [|k] e Hk; simpl in Hk.
    + injection Hk as <-. exists conn. split; [done|].
      rewrite Nat.add_0_r, Hout by lia.
      rewrite list_lookup_insert_eq by lia. by rewrite Hdsp.
    + destruct (Hset k e Hk) as (conn' & Hconn' & Hdsp').
      exists conn'. split; [done|].
      replace (i + S k) with (S (i + k)) by lia.
      rewrite Hdsp'. by rewrite list_lookup_insert_ne by lia.
Qed.

Lemma rx_mux_loop_never_throws entries : ∀ i self,
  Forall (λ e, is_Some (_tree self !! rx_connection_path e)) entries →
  ∀ e self', rx_mux_loop entries i self ≠ Threw e self'.
Proof.
  induction entries as [|entry entries IH]; intros i self Hpaths e self'; simpl; [done|].
  apply Forall_cons in Hpaths as [[conn ->] Hpaths].
  destruct (_rx_dsps self !! i); [|done]. by apply IH.
Qed.

Lemma rx_bind_loop_never_throws n : ∀ i self e self',
  rx_bind' n i self ≠ Threw e self'.
Proof.
  induction n as [|n IH]; intros i self e self'; simpl; [done|].
  destruct (_rx_dsps self !! i); [|done].
  destruct (max_recv_samps' self); [|done]. apply IH.
Qed.

(** X10.  [update_rx_subdev_spec] throws only for a spec the validation
    rejects, and then leaves the device untouched: when the validation
    lets through only specs whose entries all have a connection in the
    property tree (as the validation of section 4.7 does), no lookup can
    fail after it, so whenever the call ends in an exception, that
    exception is the validation's and nothing has been programmed, resized
    or bound. *)
Theorem update_rx_subdev_spec_throws_only_on_rejection
    (self self' : b100_impl X R) (spec : list subdev_spec_pair_t) (e : exception)
    (Hsound : validate_subdev_spec (_tree self) spec "rx" = None →
              Forall (λ e, is_Some (_tree self !! rx_connection_path e)) spec)
    (Hthrew : update_rx' spec self = Threw e self') :
  validate_subdev_spec (_tree self) spec "rx" = Some e ∧ self' = self.
Proof.
  revert Hthrew. unfold update_rx_subdev_spec.
  destruct (validate_subdev_spec (_tree self) spec "rx") as [e0|] eqn:Hv.
  { by intros [= <- <-]. }
  specialize (Hsound eq_refl).
  pose proof (rx_mux_loop_never_throws spec 0 self Hsound) as Hmux.
  destruct (rx_mux_loop spec 0 self) as [self1|e1 self1|self1]; [|by destruct (Hmux e1 self1)|done].
  intros Hthrew. by apply rx_bind_loop_never_throws in Hthrew.
Qed.

(** X11.  A receive spec with more entries than there are receive DSPs,
    all with a connection in the tree: once every DSP has been given the
    mux of its entry, the loop indexes [_rx_dsps] outside the vector; the
    handler has not been resized. *)
Theorem update_rx_subdev_spec_more_entries_than_dsps
    (self : b100_impl X R) (spec : list subdev_spec_pair_t)
    (Hvalid : validate_subdev_spec (_tree self) spec "rx" = None)
    (Hpaths : Forall (λ e, is_Some (_tree self !! rx_connection_path e)) spec)
    (Hlong : length (_rx_dsps self) < length spec) :
  ∃ self',
    update_rx' spec self = Undefined self'
    ∧ _io_impl self' = _io_impl self
    ∧ length (_rx_dsps self') = length (_rx_dsps self)
    ∧ ∀ k entry, k < length (_rx_dsps self) → spec !! k = Some entry →
        ∃ conn, _tree self !! rx_connection_path entry = Some conn
                ∧ rx_mux <$> (_rx_dsps self' !! k) = Some (Some conn).
Proof.
  set (n := length (_rx_dsps self)).
  assert (length (take n spec) = n) as Htake by (rewrite length_take; lia).
  destruct (drop n spec) as [|entry post] eqn:Hdrop.
  { apply (f_equal length) in Hdrop. rewrite length_drop in Hdrop. simpl in Hdrop. lia. }
  assert (spec = take n spec ++ entry :: post) as Hsplit
      by (by rewrite <- Hdrop, take_drop).
  destruct (rx_mux_loop_prefix (take n spec) 0 self (entry :: post))
    as (self1 & Hrun & Htree & Hio & Hlen & Hout & Hset & Hotw).
  { rewrite Hsplit in Hpaths. by apply Forall_app in Hpaths as [? _]. }
  { simpl. fold n. lia. }
  exists self1. unfold update_rx_subdev_spec. rewrite Hvalid.
  rewrite Hsplit at 1. rewrite Hrun. simpl. rewrite Htree.
  assert (is_Some (_tree self !! rx_connection_path entry)) as [conn ->].
  { rewrite Hsplit in Hpaths. apply Forall_app in Hpaths as [_ Hrest].
    by apply Forall_cons in Hrest as [? _]. }
  rewrite (proj2 (lookup_ge_None _ _)) by lia.
  split_and!; try done.
  intros k e Hk He. destruct (Hset k e) as (conn' & Hconn' & Hdsp).
  { by rewrite lookup_take_lt. }
  exists conn'. split; [done|]. simpl in Hdsp. rewrite Hdsp.
  by destruct (lookup_lt_is_Some_2 (_rx_dsps self) k Hk) as [dsp ->].
Qed.

(** The callback loop of [update_rx_subdev_spec] over [n] channels from
    [i] on: each gets its own [get_recv_buff] and overflow binding and its
    DSP the packet size; the other channels and DSPs are not touched. *)
Lemma rx_bind_loop_binds n : ∀ i self nsamps,
  max_recv_samps' self = Some nsamps →
  i + n ≤ length (_rx_dsps self) →
  i + n ≤ length (recv_handler (_io_impl self)) →
  ∃ self',
    rx_bind' n i self = Done self'
    ∧ (∀ m, i ≤ m < i + n →
         recv_handler (_io_impl self') !! m
         = Some (XportChanProps (Some (BindGetRecvBuff m)) (Some (BindHandleOverflow m)))
         ∧ _rx_dsps self' !! m
           = rx_set_nsamps_per_packet nsamps <$> (_rx_dsps self !! m))
    ∧ (∀ m, m < i ∨ i + n ≤ m →
         recv_handler (_io_impl self') !! m = recv_handler (_io_impl self) !! m
         ∧ _rx_dsps self' !! m = _rx_dsps self !! m).
Proof.
  induction n as [|n IH]; intros i self nsamps Hsamps Hdsps Hchans; simpl.
  { exists self. split_and!; [done | intros m ?; lia | done]. }
  destruct (lookup_lt_is_Some_2 (_rx_dsps self) i ltac:(lia)) as [dsp Hdsp].
  destruct (lookup_lt_is_Some_2 (recv_handler (_io_impl self)) i ltac:(lia)) as [props Hprops].
  rewrite Hdsp, Hsamps.
  match goal with |- context [rx_bind' n (S i) ?s] =>
    destruct (IH (S i) s nsamps) as (self' & Hrun & Hin & Hout) end.
  { done. }
  { simpl. rewrite length_insert. lia. }
  { simpl. unfold set_overflow_handler, set_xport_chan_get_buff.
    rewrite !length_alter. lia. }
  exists self'. split; [done|]. simpl in *.
  unfold set_overflow_handler, set_xport_chan_get_buff in *. split.
  - intros m Hm. destruct (decide (m = i)) as [->|Hne].
    + destruct (Hout i ltac:(lia)) as [-> ->].
      rewrite !list_lookup_alter_eq, Hprops. simpl.
      rewrite list_lookup_insert_eq by (by eapply lookup_lt_Some). by rewrite Hdsp.
    + destruct (Hin m ltac:(lia)) as [-> ->].
      by rewrite list_lookup_insert_ne by done.
  - intros m Hm. destruct (Hout m ltac:(lia)) as [-> ->].
    rewrite !list_lookup_alter_ne by lia. by rewrite list_lookup_insert_ne by lia.
Qed.

Lemma update_rx_done_state
    (self : b100_impl X R) (spec : list subdev_spec_pair_t) (nsamps : Z)
    (Hvalid : validate_subdev_spec (_tree self) spec "rx" = None)
    (Hpaths : Forall (λ e, is_Some (_tree self !! rx_connection_path e)) spec)
    (Hdsps : length spec ≤ length (_rx_dsps self))
    (Hsamps : max_recv_samps' self = Some nsamps) :
  ∃ self',
    update_rx' spec self = Done self'
    ∧ length (recv_handler (_io_impl self')) = length spec
    ∧ (∀ i entry, spec !! i = Some entry →
         recv_handler (_io_impl self') !! i
         = Some (XportChanProps (Some (BindGetRecvBuff i)) (Some (BindHandleOverflow i)))
         ∧ ∃ conn, _tree self !! rx_connection_path entry = Some conn
                   ∧ _rx_dsps self' !! i = Some (RxDsp (Some conn) (Some nsamps)))
    ∧ (∀ m, length spec ≤ m → _rx_dsps self' !! m = _rx_dsps self !! m).
Proof.
  destruct (rx_mux_loop_prefix spec 0 self [] Hpaths ltac:(simpl; lia))
    as (self1 & Hrun & Htree & Hio & Hlen & Hout & Hset & Hotw).
  rewrite app_nil_r in Hrun. simpl in Hrun.
  unfold update_rx_subdev_spec. rewrite Hvalid, Hrun. simpl.
  rewrite handler_resize_length.
  match goal with |- context [rx_bind' _ 0 ?s] =>
    destruct (rx_bind_loop_binds (length spec) 0 s nsamps)
      as (self' & Hrun' & Hin & Hout') end.
  { revert Hsamps. unfold get_max_recv_samps_per_packet. simpl. by rewrite Hotw. }
  { simpl. lia. }
  { simpl. by rewrite handler_resize_length. }
  exists self'. split; [done|]. simpl in *. split_and!.
  - destruct (decide (length (recv_handler (_io_impl self')) = length spec)) as [|Hne];
      [done|]. exfalso.
    destruct (lt_eq_lt_dec (length (recv_handler (_io_impl self'))) (length spec))
      as [[Hlt|]|Hgt]; [|done|].
    + destruct (Hin (length (recv_handler (_io_impl self'))) ltac:(lia)) as [Hl _].
      apply lookup_lt_Some in Hl. lia.
    + destruct (Hout' (length spec) ltac:(lia)) as [Hl _].
      rewrite (proj2 (lookup_ge_None (handler_resize _ _) (length spec))) in Hl
        by (rewrite handler_resize_length; lia).
      apply lookup_ge_None in Hl. lia.
  - intros i entry Hi. pose proof (lookup_lt_Some _ _ _ Hi) as Hlt.
    destruct (Hin i ltac:(lia)) as [Hh Hd]. split; [done|].
    destruct (Hset i entry Hi) as (conn & Hconn & Hmux). exists conn. split; [done|].
    simpl in Hmux. rewrite Hd, Hmux.
    destruct (lookup_lt_is_Some_2 (_rx_dsps self) i ltac:(lia)) as [dsp ->]. done.
  - intros m Hm. destruct (Hout' m ltac:(lia)) as [_ ->]. apply Hout. simpl. lia.
Qed.

(** X12.  What a successful [update_rx_subdev_spec] leaves behind: the
    receive handler has one channel per entry; channel [i] fetches its
    buffers through [get_recv_buff] with index [i] and reports overflows
    to DSP [i]; DSP [i] has the mux of entry [i] and the packet size of
    [get_max_recv_samps_per_packet]; DSPs beyond the spec are as before. *)
Theorem update_rx_subdev_spec_binds_channels
    (self : b100_impl X R) (spec : list subdev_spec_pair_t) (nsamps : Z)
    (Hvalid : validate_subdev_spec (_tree self) spec "rx" = None)
    (Hpaths : Forall (λ e, is_Some (_tree self !! rx_connection_path e)) spec)
    (Hdsps : length spec ≤ length (_rx_dsps self))
    (Hsamps : max_recv_samps' self = Some nsamps) :
  ∃ self',
    update_rx' spec self = Done self'
    ∧ length (recv_handler (_io_impl self')) = length spec
    ∧ (∀ i entry, spec !! i = Some entry →
         recv_handler (_io_impl self') !! i
         = Some (XportChanProps (Some (BindGetRecvBuff i)) (Some (BindHandleOverflow i)))
         ∧ ∃ conn, _tree self !! rx_connection_path entry = Some conn
                   ∧ _rx_dsps self' !! i = Some (RxDsp (Some conn) (Some nsamps)))
    ∧ (∀ m, length spec ≤ m → _rx_dsps self' !! m = _rx_dsps self !! m).
Proof. by apply update_rx_done_state. Qed.

Lemma tx_bind_loop_binds n : ∀ i self,
  let self' := tx_bind_loop n i self in
  _tree self' = _tree self ∧ _rx_dsps self' = _rx_dsps self ∧ _tx_fe self' = _tx_fe self
  ∧ _rx_otw_type self' = _rx_otw_type self ∧ _tx_otw_type self' = _tx_otw_type self
  ∧ fpga_clock_rate self' = fpga_clock_rate self
  ∧ data_transport (_io_impl self') = data_transport (_io_impl self)
  ∧ async_msg_fifo (_io_impl self') = async_msg_fifo (_io_impl self)
  ∧ _buffs_queue (_io_impl self') = _buffs_queue (_io_impl self)
  ∧ recv_handler (_io_impl self') = recv_handler (_io_impl self)
  ∧ msgs (_io_impl self') = msgs (_io_impl self)
  ∧ (∀ m, i ≤ m < i + n → m < length (send_handler (_io_impl self)) →
       xcp_get_buff <$> (send_handler (_io_impl self') !! m) = Some (Some BindGetSendBuff))
  ∧ (∀ m, m < i ∨ i + n ≤ m →
       send_handler (_io_impl self') !! m = send_handler (_io_impl self) !! m).
Proof.
  induction n as [|n IH]; intros i self; simpl.
  { split_and!; try done. intros m ?; lia. }
  match goal with |- context [tx_bind_loop n (S i) ?s] =>
    destruct (IH (S i) s) as (?&?&?&?&?&?&?&?&?&?&?& Hin & Hout) end.
  simpl in *. unfold set_xport_chan_get_buff in *. split_and!; try done.
  - intros m Hm Hlen. destruct (decide (m = i)) as [->|Hne].
    + rewrite Hout by lia. rewrite list_lookup_alter_eq.
      by destruct (lookup_lt_is_Some_2 _ _ Hlen) as [props ->].
    + apply Hin; [lia|]. by rewrite length_alter.
  - intros m Hm. rewrite Hout by lia. by rewrite list_lookup_alter_ne by lia.
Qed.

(** X13.  What a successful [update_tx_subdev_spec] leaves behind: the
    send handler has one channel per entry of the spec, every one of them
    fetching its buffers from the transport's [get_send_buff]; the transmit
    mux holds the connection of the first entry; the receive side (DSPs,
    receive handler, channel queues), the message fifo and the transport
    are as before. *)
Theorem update_tx_subdev_spec_binds_channels
    (self : b100_impl X R) (spec : list subdev_spec_pair_t)
    (first : subdev_spec_pair_t) (conn : string)
    (Hvalid : validate_subdev_spec (_tree self) spec "tx" = None)
    (Hfirst : spec !! 0 = Some first)
    (Hconn : _tree self !! tx_connection_path first = Some conn) :
  ∃ self',
    update_tx' spec self = Done self'
    ∧ length (send_handler (_io_impl self')) = length spec
    ∧ (∀ i, i < length spec →
         xcp_get_buff <$> (send_handler (_io_impl self') !! i)
         = Some (Some BindGetSendBuff))
    ∧ _tx_fe self' = TxFe (Some conn)
    ∧ _rx_dsps self' = _rx_dsps self
    ∧ recv_handler (_io_impl self') = recv_handler (_io_impl self)
    ∧ _buffs_queue (_io_impl self') = _buffs_queue (_io_impl self)
    ∧ async_msg_fifo (_io_impl self') = async_msg_fifo (_io_impl self)
    ∧ data_transport (_io_impl self') = data_transport (_io_impl self).
Proof.
  unfold update_tx_subdev_spec. rewrite Hvalid, Hfirst, Hconn.
  eexists. split; [done|]. simpl. rewrite handler_resize_length.
  match goal with |- context [tx_bind_loop ?n 0 ?s] =>
    destruct (tx_bind_loop_binds n 0 s) as (?&?&?&?&?&?&?&?&?&?&?& Hin & Hout);
    pose proof (proj2 (tx_bind_loop_tx_fe n 0 s)) as Hlen end.
  simpl in *. rewrite handler_resize_length in *.
  split_and!; try done. intros i Hi. apply Hin; lia.
Qed.

Lemma update_rx_frame
    (self : b100_impl X R) (spec : list subdev_spec_pair_t) :
  let self' := outcome_state (update_rx' spec self) in
  _buffs_queue (_io_impl self') = _buffs_queue (_io_impl self)
  ∧ async_msg_fifo (_io_impl self') = async_msg_fifo (_io_impl self)
  ∧ data_transport (_io_impl self') = data_transport (_io_impl self)
  ∧ send_handler (_io_impl self') = send_handler (_io_impl self)
  ∧ msgs (_io_impl self') = msgs (_io_impl self)
  ∧ _tx_fe self' = _tx_fe self
  ∧ _tree self' = _tree self
  ∧ _rx_otw_type self' = _rx_otw_type self
  ∧ _tx_otw_type self' = _tx_otw_type self
  ∧ length (_rx_dsps self') = length (_rx_dsps self).
Proof.
  assert (∀ entries i (s : b100_impl X R),
    let s' := outcome_state (rx_mux_loop entries i s) in
    _io_impl s' = _io_impl s ∧ _tx_fe s' = _tx_fe s ∧ _tree s' = _tree s
    ∧ _rx_otw_type s' = _rx_otw_type s ∧ _tx_otw_type s' = _tx_otw_type s
    ∧ length (_rx_dsps s') = length (_rx_dsps s)) as Hmux.
  { induction entries as [|entry entries IH]; intros i s; simpl; [done|].
    destruct (_tree s !! rx_connection_path entry); [|done].
    destruct (_rx_dsps s !! i); [|done].
    match goal with |- context [rx_mux_loop entries (S i) ?s1] =>
      destruct (IH (S i) s1) as (?&?&?&?&?& Hlen) end.
    simpl in *. rewrite length_insert in Hlen. done. }
  assert (∀ n i (s : b100_impl X R),
    let s' := outcome_state (rx_bind' n i s) in
    _buffs_queue (_io_impl s') = _buffs_queue (_io_impl s)
    ∧ async_msg_fifo (_io_impl s') = async_msg_fifo (_io_impl s)
    ∧ data_transport (_io_impl s') = data_transport (_io_impl s)
    ∧ send_handler (_io_impl s') = send_handler (_io_impl s)
    ∧ msgs (_io_impl s') = msgs (_io_impl s)
    ∧ _tx_fe s' = _tx_fe s ∧ _tree s' = _tree s
    ∧ _rx_otw_type s' = _rx_otw_type s ∧ _tx_otw_type s' = _tx_otw_type s
    ∧ length (_rx_dsps s') = length (_rx_dsps s)) as Hbind.
  { induction n as [|n IH]; intros i s; simpl; [done|].
    destruct (_rx_dsps s !! i); [|done].
    destruct (max_recv_samps' s); [|done].
    match goal with |- context [rx_bind' n (S i) ?s1] =>
      destruct (IH (S i) s1) as (?&?&?&?&?&?&?&?&?& Hlen) end.
    simpl in *. rewrite length_insert in Hlen. done. }
  unfold update_rx_subdev_spec.
  destruct (validate_subdev_spec (_tree self) spec "rx"); [done|].
  pose proof (Hmux spec 0 self) as (Hio & ? & ? & ? & ? & ?).
  destruct (rx_mux_loop spec 0 self) as [self1|e self1|self1]; simpl in *;
    [|by rewrite Hio..].
  match goal with |- context [rx_bind' ?n 0 ?s1] =>
    destruct (Hbind n 0 s1) as (?&?&?&?&?&?&?&?&?&?) end.
  simpl in *. rewrite Hio in *. split_and!; congruence.
Qed.

(** X14.  Reconfiguring the receive side never touches the channel
    queues: however [update_rx_subdev_spec] ends, the vector of queues
    (their number and their contents), the message fifo, the transport, the
    send handler, the transmit front-end, the property tree and the sample
    formats are as before, and no DSP is added or removed.  In particular
    the number of queues stays what the constructor made it, whatever the
    size of the spec. *)
Theorem update_rx_subdev_spec_keeps_queues
    (self : b100_impl X R) (spec : list subdev_spec_pair_t) :
  let self' := outcome_state (update_rx' spec self) in
  _buffs_queue (_io_impl self') = _buffs_queue (_io_impl self)
  ∧ async_msg_fifo (_io_impl self') = async_msg_fifo (_io_impl self)
  ∧ data_transport (_io_impl self') = data_transport (_io_impl self)
  ∧ send_handler (_io_impl self') = send_handler (_io_impl self)
  ∧ msgs (_io_impl self') = msgs (_io_impl self)
  ∧ _tx_fe self' = _tx_fe self
  ∧ _tree self' = _tree self
  ∧ _rx_otw_type self' = _rx_otw_type self
  ∧ _tx_otw_type self' = _tx_otw_type self
  ∧ length (_rx_dsps self') = length (_rx_dsps self).
Proof. apply update_rx_frame. Qed.

(** X15.  Every receive channel bound by a successful
    [update_rx_subdev_spec] can fetch: on a device whose [io_impl] has one
    queue per receive DSP (as [io_init] constructs it), the index bound
    into each channel's [get_recv_buff] callback is inside the vector of
    queues, so a call through it never ends in the access outside the
    vector, whatever the transport delivers. *)
Theorem bound_recv_channels_are_in_range {T : Type} `{!zero_copy_if T X}
    (B100_RX_SID_BASE w : Z)
    (self : b100_impl X R) (spec : list subdev_spec_pair_t) (nsamps : Z)
    (i fuel : nat) (timeout : T)
    (Hinit : length (_buffs_queue (_io_impl self)) = length (_rx_dsps self))
    (Hvalid : validate_subdev_spec (_tree self) spec "rx" = None)
    (Hpaths : Forall (λ e, is_Some (_tree self !! rx_connection_path e)) spec)
    (Hdsps : length spec ≤ length (_rx_dsps self))
    (Hsamps : max_recv_samps' self = Some nsamps)
    (Hchan : i < length spec) :
  ∃ self',
    update_rx' spec self = Done self'
    ∧ xcp_get_buff <$> (recv_handler (_io_impl self') !! i)
      = Some (Some (BindGetRecvBuff i))
    ∧ i < length (_buffs_queue (_io_impl self'))
    ∧ (get_recv_buff B100_RX_SID_BASE w fuel i timeout (_io_impl self')).1 ≠ OutOfRange.
Proof.
  destruct (update_rx_done_state self spec nsamps Hvalid Hpaths Hdsps Hsamps)
    as (self' & Hrun & Hlen & Hbound & _).
  pose proof (update_rx_frame self spec) as Hkeep.
  rewrite Hrun in Hkeep. simpl in Hkeep. destruct Hkeep as (Hqs & _).
  exists self'. destruct (lookup_lt_is_Some_2 spec i Hchan) as [entry Hentry].
  destruct (Hbound i entry Hentry) as [Hprops _].
  assert (i < length (_buffs_queue (_io_impl self'))) as Hin by (rewrite Hqs; lia).
  split_and!; [done | by rewrite Hprops | done |].
  destruct (get_recv_buff B100_RX_SID_BASE w fuel i timeout (_io_impl self'))
    as [r s'] eqn:Hcall.
  apply get_recv_buff_sound in Hcall as (_ & _ & _ & Hr & _). by apply Hr.
Qed.

End SubdevSpecMore.


(** ** Packet sizing: what the bound means *)

Section SizingMore.
Context {X R : Type}.
Variable size_bits : Z.
Variable max_if_hdr_words32 : Z.
Variable sizeof_cid : Z.
Variable sizeof_tlr : Z.
Variable get_sample_size : otw_type_t → Z.

Abbreviation max_send' :=
  (get_max_send_samps_per_packet (X:=X) (R:=R) size_bits max_if_hdr_words32
     sizeof_cid get_sample_size).
Abbreviation max_recv' :=
  (get_max_recv_samps_per_packet (X:=X) (R:=R) size_bits max_if_hdr_words32
     sizeof_cid sizeof_tlr get_sample_size).

Lemma max_send_value (self : b100_impl X R) :
  (2048 < 2 ^ size_bits)%Z →
  (0 <= sizeof_cid <= 4 * max_if_hdr_words32)%Z →
  (4 * max_if_hdr_words32 < 2 ^ size_bits)%Z →
  (4 * max_if_hdr_words32 - sizeof_cid <= 2048)%Z →
  (0 < get_sample_size (_tx_otw_type self))%Z →
  max_send' self
  = Some ((2048 - (4 * max_if_hdr_words32 - sizeof_cid))
          / get_sample_size (_tx_otw_type self))%Z.
Proof.
  intros Hbits Hcid Hhdr Hfit Htx. unfold get_max_send_samps_per_packet.
  rewrite bool_decide_eq_false_2 by lia. do 2 f_equal.
  rewrite (wrap_small _ (max_if_hdr_words32 * 4)), Z.add_0_l by lia.
  rewrite (wrap_small _ (max_if_hdr_words32 * 4)) by lia.
  rewrite (wrap_small _ (max_if_hdr_words32 * 4 - sizeof_cid)) by lia.
  rewrite wrap_small by lia. lia.
Qed.

Lemma max_recv_value (self : b100_impl X R) :
  (2048 < 2 ^ size_bits)%Z →
  (0 <= sizeof_cid <= 4 * max_if_hdr_words32)%Z →
  (0 <= sizeof_tlr)%Z →
  (4 * max_if_hdr_words32 + sizeof_tlr < 2 ^ size_bits)%Z →
  (4 * max_if_hdr_words32 - sizeof_cid + sizeof_tlr <= 2048)%Z →
  (0 < get_sample_size (_rx_otw_type self))%Z →
  max_recv' self
  = Some ((2048 - (4 * max_if_hdr_words32 - sizeof_cid + sizeof_tlr))
          / get_sample_size (_rx_otw_type self))%Z.
Proof.
  intros Hbits Hcid Htlr Hhdr Hfit Hrx. unfold get_max_recv_samps_per_packet.
  rewrite bool_decide_eq_false_2 by lia. do 2 f_equal.
  rewrite (wrap_small _ (max_if_hdr_words32 * 4)), Z.add_0_l by lia.
  rewrite (wrap_small _ (max_if_hdr_words32 * 4)) by lia.
  rewrite (wrap_small _ (max_if_hdr_words32 * 4 + sizeof_tlr)) by lia.
  rewrite (wrap_small _ (max_if_hdr_words32 * 4 + sizeof_tlr - sizeof_cid)) by lia.
  rewrite wrap_small by lia. lia.
Qed.

(** X16.  The bounds are tight: when nothing wraps around, a packet with
    the header overhead and the maximal number of samples fits the 2048
    bytes, and one sample more would not; this holds for the send bound and,
    with the trailer counted, for the receive bound. *)
Theorem max_samps_fill_the_packet (self : b100_impl X R) (n_send n_recv : Z)
    (Hbits : (2048 < 2 ^ size_bits)%Z)
    (Hcid : (0 <= sizeof_cid <= 4 * max_if_hdr_words32)%Z)
    (Htlr : (0 <= sizeof_tlr)%Z)
    (Hhdr : (4 * max_if_hdr_words32 + sizeof_tlr < 2 ^ size_bits)%Z)
    (Hfit : (4 * max_if_hdr_words32 - sizeof_cid + sizeof_tlr <= 2048)%Z)
    (Htx : (0 < get_sample_size (_tx_otw_type self))%Z)
    (Hrx : (0 < get_sample_size (_rx_otw_type self))%Z)
    (Hsend : max_send' self = Some n_send)
    (Hrecv : max_recv' self = Some n_recv) :
  let send_overhead := (4 * max_if_hdr_words32 - sizeof_cid)%Z in
  let recv_overhead := (4 * max_if_hdr_words32 - sizeof_cid + sizeof_tlr)%Z in
  (0 <= n_send)%Z
  ∧ (send_overhead + n_send * get_sample_size (_tx_otw_type self) <= 2048
     < send_overhead + (n_send + 1) * get_sample_size (_tx_otw_type self))%Z
  ∧ (0 <= n_recv)%Z
  ∧ (recv_overhead + n_recv * get_sample_size (_rx_otw_type self) <= 2048
     < recv_overhead + (n_recv + 1) * get_sample_size (_rx_otw_type self))%Z.
Proof.
  cbv zeta.
  rewrite max_send_value in Hsend by lia. injection Hsend as <-.
  rewrite max_recv_value in Hrecv by lia. injection Hrecv as <-.
  set (so := (4 * max_if_hdr_words32 - sizeof_cid)%Z) in *.
  set (ro := (so + sizeof_tlr)%Z) in *.
  set (ss_tx := get_sample_size (_tx_otw_type self)) in *.
  set (ss_rx := get_sample_size (_rx_otw_type self)) in *.
  pose proof (Z.div_mod (2048 - so) ss_tx ltac:(lia)) as Hs.
  pose proof (Z.mod_pos_bound (2048 - so) ss_tx Htx) as Hsb.
  pose proof (Z.div_mod (2048 - ro) ss_rx ltac:(lia)) as Hr.
  pose proof (Z.mod_pos_bound (2048 - ro) ss_rx Hrx) as Hrb.
  assert (0 <= (2048 - so) / ss_tx)%Z by (apply Z.div_pos; lia).
  assert (0 <= (2048 - ro) / ss_rx)%Z by (apply Z.div_pos; lia).
  generalize dependent ((2048 - so) / ss_tx)%Z.
  generalize dependent ((2048 - so) `mod` ss_tx)%Z.
  generalize dependent ((2048 - ro) / ss_rx)%Z.
  generalize dependent ((2048 - ro) `mod` ss_rx)%Z.
  intros. lia.
Qed.

End SizingMore.


(** ** The further properties at work on the sample device *)

Lemma get_recv_buff_keeps_queues_bounded_witness :
  Forall bb_wf
    (_buffs_queue (get_recv_buff 2 32 3 0 10%Z (two_channels (burst 2))).2).
Proof.
  refine (proj1 (get_recv_buff_keeps_queues_bounded 2 32 3 0 10%Z
                   (two_channels (burst 2)) _)).
  repeat constructor; simpl; lia.
Defined.

Lemma recv_calls_return_own_channel_witness :
  rx_index_of 2 32 (data_frame 3 111) = 1.
Proof.
  apply (recv_calls_return_own_channel (R:=unit) 2 32
           (ScriptXport 0 [(1, data_frame 3 111); (1, data_frame 2 222)]%Z 16) 2
           [(3, 0, 10%Z); (1, 1, 10%Z)] 1 (1, 1, 10%Z) (data_frame 3 111)).
  - reflexivity.
  - reflexivity.
Defined.

Lemma requeued_frames_keep_arrival_order_witness :
  let first := get_recv_buff 2 32 19 0 10%Z (two_channels (burst 18)) in
  first.1 = Returned None
  ∧ (recv_calls 2 32 (replicate 16 (1, 1, 10%Z)) first.2).1
    = (λ k, Returned (Some (data_frame 3 (Z.of_nat k)))) <$> seq 2 16.
Proof.
  destruct (requeued_frames_keep_arrival_order 2 32 (two_channels (burst 18))
              0 1 0 10%Z (bb_new 16) (bb_new 16))
    as (Hfirst & _ & Hlater & _); try reflexivity.
  - lia.
  - split; simpl; lia.
  - repeat (constructor; [split; [simpl; lia | reflexivity]|]). constructor.
  - split; [exact Hfirst | exact Hlater].
Defined.

Lemma handle_async_message_only_fifo_and_log_witness :
  same_but_fifo_and_log
    (outcome_state (handle_async_message_model underflow_info underflow_frame sample_device))
    sample_device.
Proof.
  refine (proj1 (handle_async_message_only_fifo_and_log 64 1 0 2 16 4 32
                   if_hdr_unpack_model get_context_code_model
                   underflow_info underflow_frame sample_device _)).
  split; simpl; lia.
Defined.

Lemma handle_async_message_contains_std_exception_witness :
  ∃ self', handle_async_message_model underflow_info runt_frame sample_device = Done self'.
Proof.
  destruct (handle_async_message_contains_std_exception 64 1 0 2 16 4 32
              if_hdr_unpack_model get_context_code_model
              underflow_info runt_frame sample_device) as (self' & Hrun & _).
  - intros info. vm_compute. discriminate.
  - exists self'. exact Hrun.
Defined.

Lemma handled_report_is_received_in_order_witness :
  ∃ self', handle_async_message_model underflow_info underflow_frame sample_device
           = Done self'
  ∧ (recv_async_msg 10%Z self').1 = Some (AsyncMetadata 0 false (TimeSpec 0 0 ()) 2).
Proof.
  destruct (handled_report_is_received_in_order 64 1 0 2 16 4 32
              if_hdr_unpack_model get_context_code_model
              underflow_info underflow_info underflow_frame sample_device 10%Z)
    as (self' & Hrun & _ & _ & _ & _ & Hrecv & _).
  - reflexivity.
  - reflexivity.
  - vm_compute. discriminate.
  - split; simpl; lia.
  - exists self'. split; [exact Hrun | exact Hrecv].
Defined.

(** The validation of section 4.7 lets through only specs whose entries
    all have a connection in the tree. *)
Lemma validate_subdev_spec_model_sound (tree : gmap (list string) string)
    (spec : list subdev_spec_pair_t) :
  validate_subdev_spec_model tree spec "rx" = None →
  Forall (λ e, is_Some (tree !! rx_connection_path e)) spec.
Proof.
  unfold validate_subdev_spec_model.
  destruct (forallb _ spec) eqn:Hall; [intros _ | done].
  apply Forall_forall. intros e He.
  rewrite forallb_forall in Hall. apply list_elem_of_In in He.
  specialize (Hall e He). by apply bool_decide_eq_true in Hall.
Qed.

Lemma update_rx_subdev_spec_throws_only_on_rejection_witness :
  validate_subdev_spec_model (_tree sample_device)
    [SubdevSpecPair "A" "1"; SubdevSpecPair "B" "0"] "rx"
  = Some (StdException "InvalidSpecError")
  ∧ sample_device = sample_device.
Proof.
  apply (update_rx_subdev_spec_throws_only_on_rejection 64 7 8 4 get_sample_size_model
           validate_subdev_spec_model sample_device sample_device
           [SubdevSpecPair "A" "1"; SubdevSpecPair "B" "0"]
           (StdException "InvalidSpecError")).
  - apply validate_subdev_spec_model_sound.
  - reflexivity.
Defined.

Lemma update_rx_subdev_spec_more_entries_than_dsps_witness :
  ∃ self',
    update_rx_subdev_spec 64 7 8 4 get_sample_size_model validate_subdev_spec_model
      [SubdevSpecPair "A" "0"; SubdevSpecPair "A" "1"; SubdevSpecPair "A" "0"]
      sample_device
    = Undefined self'
    ∧ _io_impl self' = _io_impl sample_device.
Proof.
  destruct (update_rx_subdev_spec_more_entries_than_dsps 64 7 8 4 get_sample_size_model
              validate_subdev_spec_model sample_device
              [SubdevSpecPair "A" "0"; SubdevSpecPair "A" "1"; SubdevSpecPair "A" "0"])
    as (self' & Hrun & Hio & _).
  - reflexivity.
  - repeat constructor; by eexists.
  - simpl. lia.
  - exists self'. split; [exact Hrun | exact Hio].
Defined.

Lemma update_rx_subdev_spec_binds_channels_witness :
  ∃ self',
    update_rx_subdev_spec 64 7 8 4 get_sample_size_model validate_subdev_spec_model
      [SubdevSpecPair "A" "0"; SubdevSpecPair "A" "1"] sample_device
    = Done self'
    ∧ length (recv_handler (_io_impl self')) = 2.
Proof.
  destruct (update_rx_subdev_spec_binds_channels 64 7 8 4 get_sample_size_model
              validate_subdev_spec_model sample_device
              [SubdevSpecPair "A" "0"; SubdevSpecPair "A" "1"] 506%Z)
    as (self' & Hrun & Hlen & _).
  - reflexivity.
  - repeat constructor; by eexists.
  - simpl. lia.
  - reflexivity.
  - exists self'. split; [exact Hrun | exact Hlen].
Defined.

Lemma update_tx_subdev_spec_binds_channels_witness :
  ∃ self',
    update_tx_subdev_spec validate_subdev_spec_model
      [SubdevSpecPair "A" "0"; SubdevSpecPair "A" "1"] sample_device
    = Done self'
    ∧ length (send_handler (_io_impl self')) = 2
    ∧ _tx_fe self' = TxFe (Some "IQ").
Proof.
  destruct (update_tx_subdev_spec_binds_channels validate_subdev_spec_model sample_device
              [SubdevSpecPair "A" "0"; SubdevSpecPair "A" "1"]
              (SubdevSpecPair "A" "0") "IQ")
    as (self' & Hrun & Hlen & _ & Hfe & _); try reflexivity.
  exists self'. split; [exact Hrun|]. split; [exact Hlen | exact Hfe].
Defined.

Lemma bound_recv_channels_are_in_range_witness :
  ∃ self',
    update_rx_subdev_spec 64 7 8 4 get_sample_size_model validate_subdev_spec_model
      [SubdevSpecPair "A" "0"; SubdevSpecPair "A" "1"] sample_device
    = Done self'
    ∧ (get_recv_buff 2 32 5 1 10%Z (_io_impl self')).1 ≠ OutOfRange.
Proof.
  destruct (bound_recv_channels_are_in_range 64 7 8 4 get_sample_size_model
              validate_subdev_spec_model 2 32 sample_device
              [SubdevSpecPair "A" "0"; SubdevSpecPair "A" "1"] 506%Z 1 5 10%Z)
    as (self' & Hrun & _ & _ & Hsafe).
  - reflexivity.
  - reflexivity.
  - repeat constructor; by eexists.
  - simpl. lia.
  - reflexivity.
  - simpl. lia.
  - exists self'. split; [exact Hrun | exact Hsafe].
Defined.

Lemma max_samps_fill_the_packet_witness :
  (20 + 507 * 4 <= 2048 < 20 + (507 + 1) * 4)%Z
  ∧ (24 + 506 * 4 <= 2048 < 24 + (506 + 1) * 4)%Z.
Proof.
  refine (let H := max_samps_fill_the_packet 64 7 8 4 get_sample_size_model
                     sample_device 507%Z 506%Z _ _ _ _ _ _ _ _ _ in
          conj (proj1 (proj2 H)) (proj2 (proj2 (proj2 H))));
    first [lia | vm_compute; reflexivity].
Defined.
